(** * Linking an OIDC identity to an authenticated user

    A shallow embedding of the two versions of the handler
    [LinkIdentityWithIDToken] (package [api]):

    - [internal/api/link-identity-token.go], embedded in [Module Api];
    - the second version of the same handler (the one that writes the
      [IdentityLinkAction] audit record), embedded in [Module ApiAlt].

    The handler is sequential Go code with early returns that threads a
    database connection, the request context and a response writer.  It
    is embedded in a state-and-error monad over a [World]; every call of
    a collaborator is also recorded in a ghost trace, so that one can
    state which collaborator is called, with which arguments and in
    which order.

    The provider resolver and the token verifier are parameters ([Env]).
    The storage operations and the helpers of package [api] are defined
    outside the two files; they are modelled from the specification, with
    failures that can be injected at each step ([Faults]).

    Contents: the model (errors, data, world, monad, collaborators, the
    two handlers); the vocabulary of the properties and concrete
    requests; tactics; lemmas; the claims [C1] to [C10]; scenarios. *)

From stdpp Require Import base option list strings gmap fin_maps.
From Stdlib Require Import ZArith.

Open Scope string_scope.
Open Scope Z_scope.
Open Scope list_scope.

Set Warnings "-register-all".

(** ** Errors *)

(** Error codes used by the handler (constants of package [api]). *)
Inductive ErrorCode :=
| ErrorCodeUserNotFound
| ErrorCodeValidationFailed
| ErrorCodeIdentityAlreadyExists.

(** Go [error] values that can flow through the handler: the package's
    [HTTPError] and [OAuthError] (both can carry an internal cause), the
    not-found error of package [models], and any other error of a
    collaborator or of the storage layer. *)
Inductive error :=
| HTTPError (HTTPStatus : Z) (Code : option ErrorCode) (Message : string)
            (InternalError : option error)
| OAuthError (Err : string) (Description : string)
             (InternalError : option error)
| IdentityNotFoundError
| OtherError (Msg : string).

Definition StatusOK : Z := 200.
Definition StatusBadRequest : Z := 400.
Definition StatusUnauthorized : Z := 401.
Definition StatusUnprocessableEntity : Z := 422.
Definition StatusInternalServerError : Z := 500.

(** The error constructors of package [api] are defined outside the
    handler's files; the spec's taxonomy fixes their classes. *)

(** Modelled from the spec: [badRequestError] is defined outside the
    handler's files.  Failed validation is a 400-class error with a
    stable error code. *)
Definition badRequestError (c : ErrorCode) (msg : string) : error :=
  HTTPError StatusBadRequest (Some c) msg None.

(** Modelled from the spec: [unprocessableEntityError] is defined
    outside the handler's files.  Identity conflicts (and a missing
    user, in one convention) are 422-class errors with a stable error
    code. *)
Definition unprocessableEntityError (c : ErrorCode) (msg : string) : error :=
  HTTPError StatusUnprocessableEntity (Some c) msg None.

(** Modelled from the spec: [unauthorizedError] is defined outside the
    handler's files.  No authenticated user is a 401-class error; the
    handler gives it a message and no error code. *)
Definition unauthorizedError (msg : string) : error :=
  HTTPError StatusUnauthorized None msg None.

(** Modelled from the spec: [internalServerError] is defined outside
    the handler's files.  Internal and storage errors are 500-class; the
    handler gives them a message and no error code. *)
Definition internalServerError (msg : string) : error :=
  HTTPError StatusInternalServerError None msg None.

(** Modelled from the spec: [oauthError] is defined outside the
    handler's files.  OAuth-policy failures carry an error name and a
    description. *)
Definition oauthError (err desc : string) : error :=
  OAuthError err desc None.

(** Modelled from the spec: [WithInternalError] is defined outside the
    handler's files.  The original cause is attached to the error for
    diagnostics. *)
Definition WithInternalError (e : error) (cause : error) : error :=
  match e with
  | HTTPError s c m _ => HTTPError s c m (Some cause)
  | OAuthError x d _ => OAuthError x d (Some cause)
  | _ => e
  end.

(** Modelled from the spec: [models.IsNotFoundError] is defined outside
    the handler's files.  It tells the lookup's not-found outcome from
    any other lookup error. *)
Definition IsNotFoundError (e : error) : bool :=
  match e with
  | IdentityNotFoundError => true
  | _ => false
  end.

(** ** Data model *)

Module Models.

(** Identifiers are UUIDs in the code; only their equality matters. *)
Definition UUID := string.

Inductive AuditAction :=
| UserModifiedAction
| IdentityLinkAction.

Record User := mkUser {
  ID : UUID;
  UserMetaData : gmap string string;
  Providers : list string
}.

Record Identity := mkIdentity {
  IdentityID : UUID;
  UserID : UUID;
  Provider : string;
  ProviderID : string;
  IdentityData : gmap string string
}.

Record AuditLogEntry := mkAuditLogEntry {
  Actor : UUID;
  Action : AuditAction;
  IPAddress : string;
  Traits : gmap string string
}.

(** The part of the database the handler reads and writes. *)
Record DB := mkDB {
  identities : list Identity;
  users : gmap string User;
  audit_log_entries : list AuditLogEntry
}.

End Models.
Export Models.

(** ** Request parameters and collaborator values *)

Record LinkIdentityWithIDTokenParams := mkLinkParams {
  lp_IdToken : string;
  lp_Provider : string;
  lp_AccessToken : string;
  lp_Nonce : string;
  lp_ClientID : string;
  lp_Issuer : string
}.

(** The fields of [IdTokenGrantParams] that the handler reads or sets. *)
Record IdTokenGrantParams := mkGrantParams {
  IdToken : string;
  AccessToken : string;
  Nonce : string;
  Provider' : string;
  ClientID : string;
  Issuer : string
}.

(** The decoded JSON object of the request body. *)
Record Body := mkBody {
  id_token : string;
  provider : string;
  access_token : string;
  nonce : string;
  client_id : string;
  issuer : string
}.

Record ParseIDTokenOptions := mkOpts {
  SkipAccessTokenCheck : bool;
  opt_AccessToken : string
}.

(** [oidc.IDToken]: the fields the handler reads. *)
Record IDToken := mkIDToken {
  Audience : list string;
  tok_Nonce : string
}.

(** [provider.Claims] with its subject, and the map [structs.Map] makes
    of it. *)
Record Claims := mkClaims {
  Subject : string;
  Fields : gmap string string
}.

Record UserProvidedData := mkUserData {
  Metadata : Claims
}.

Definition structs_Map (c : Claims) : gmap string string := Fields c.

Definition OIDCProvider := string.

(** What the provider resolver returns on success:
    [(oidcProvider, skipNonceCheck, providerType, acceptableClientIDs)]. *)
Record Resolved := mkResolved {
  oidcProvider : OIDCProvider;
  skipNonceCheck : bool;
  providerType : string;
  acceptableClientIDs : list string
}.

Record Response := mkResponse {
  status : Z;
  payload : User
}.

(** ** The world the handler runs in *)

(** Calls of collaborators, in the order they are made (ghost trace). *)
Inductive Call :=
| CallGetUser
| CallRetrieveRequestParams
| CallGetProvider (p : IdTokenGrantParams)
| CallParseIDToken (prov : OIDCProvider) (tok : string)
                   (opts : ParseIDTokenOptions)
| CallBegin
| CallFindIdentityByIdAndProvider (sub pt : string)
| CallNewIdentity (uid : UUID) (pt : string) (data : gmap string string)
| CallCreate (i : Identity)
| CallUpdateUserMetaData (data : gmap string string)
| CallUpdateAppMetaDataProviders
| CallNewAuditLogEntry (actor : UUID) (a : AuditAction) (ip : string)
                       (traits : gmap string string)
| CallRollback
| CallCommit
| CallSendJSON (st : Z) (u : User).

(** [conn] is the storage, [ctx_user] the user object the request context
    points to (the handler mutates it in place), [writer] what has been
    written to the [http.ResponseWriter]. *)
Record World := mkWorld {
  conn : DB;
  ctx_user : option User;
  writer : option Response;
  calls : list Call
}.

(** Failures of the storage layer and of the response writer that the
    handler has to cope with; [None] lets the step succeed. *)
Record Faults := mkFaults {
  fault_find : option error;
  fault_create : option error;
  fault_update_meta : option error;
  fault_update_providers : option error;
  fault_audit : option error;
  fault_commit : option error;
  fault_send : option error
}.

(** The request and the external collaborators of one handler run:
    the outcome of decoding the body, the provider resolver, the token
    verifier, how an identity's provider-subject is read from its data,
    the identifier the storage gives to a new row, and the failures. *)
Record Env := mkEnv {
  body : error + Body;
  getProvider : IdTokenGrantParams -> error + Resolved;
  ParseIDToken : OIDCProvider -> string -> ParseIDTokenOptions ->
                 error + (IDToken * UserProvidedData);
  provider_id_of : gmap string string -> error + string;
  new_uuid : UUID;
  faults : Faults
}.

(** ** The handler monad: state over [World], errors as early return *)

Definition M (A : Type) : Type := World -> (error + A) * World.

Definition ret {A} (a : A) : M A := fun s => (inr a, s).

Definition throw {A} (e : error) : M A := fun s => (inl e, s).

Definition bind {A B} (m : M A) (k : A -> M B) : M B :=
  fun s =>
    match m s with
    | (inl e, s') => (inl e, s')
    | (inr a, s') => k a s'
    end.

Notation "'do' x <- m ; k" := (bind m (fun x => k))
  (at level 10, x name, m at level 100, k at level 200).
Notation "m ;; k" := (bind m (fun _ => k))
  (at level 100, k at level 200, right associativity).

Definition get : M World := fun s => (inr s, s).

Definition log (c : Call) : M unit :=
  fun s => (inr tt, mkWorld (conn s) (ctx_user s) (writer s) (calls s ++ [c])).

Definition set_conn (d : DB) : M unit :=
  fun s => (inr tt, mkWorld d (ctx_user s) (writer s) (calls s)).

Definition set_user (u : User) : M unit :=
  fun s => (inr tt, mkWorld (conn s) (Some u) (writer s) (calls s)).

Definition set_writer (r : Response) : M unit :=
  fun s => (inr tt, mkWorld (conn s) (ctx_user s) (Some r) (calls s)).

Definition lift {A} (r : error + A) : M A :=
  match r with
  | inl e => throw e
  | inr a => ret a
  end.

(** Returns early with [e] when [f] holds an error. *)
Definition fail_on (f : option error) : M unit :=
  match f with
  | Some e => throw e
  | None => ret tt
  end.

(** [if err != nil { return wrap(err) }] around a failing step. *)
Definition wrap_err {A} (wrap : error -> error) (m : M A) : M A :=
  fun s =>
    match m s with
    | (inl e, s') => (inl (wrap e), s')
    | r => r
    end.

(** Go's [==] on strings. *)
Infix "==" := String.eqb (at level 70, no associativity).

(** ** Collaborators *)

Section Collaborators.

Variable env : Env.

(** Modelled from the spec: [getUser] is defined outside the handler's
    files.  It yields the user object of an authenticated session, nil
    when there is none. *)
Definition getUser : M (option User) :=
  log CallGetUser;;
  do s <- get;
  ret (ctx_user s).

(** Dereferences the pointer [getUser] returned. *)
Definition deref_user : M User :=
  do s <- get;
  match ctx_user s with
  | Some u => ret u
  | None => throw (OtherError "nil pointer dereference")
  end.

(** Modelled from the spec: [retrieveRequestParams] is defined outside
    the handler's files.  It decodes the request body into the struct it
    is given, or fails. *)
Definition retrieveRequestParams {A} (decode : Body -> A) : M A :=
  log CallRetrieveRequestParams;;
  do b <- lift (body env);
  ret (decode b).

Definition decodeIdTokenGrantParams (b : Body) : IdTokenGrantParams :=
  mkGrantParams (id_token b) (access_token b) (nonce b) (provider b)
                (client_id b) (issuer b).

Definition decodeLinkIdentityWithIDTokenParams (b : Body)
  : LinkIdentityWithIDTokenParams :=
  mkLinkParams (id_token b) (provider b) (access_token b) (nonce b)
               (client_id b) (issuer b).

(** [params.getProvider(ctx, config, r)]: the provider resolver, a
    parameter of the development ([getProvider env]). *)
Definition getProvider' (p : IdTokenGrantParams) : M Resolved :=
  log (CallGetProvider p);;
  lift (getProvider env p).

(** [provider.ParseIDToken(ctx, oidcProvider, nil, idToken, opts)]: the
    token verifier, a parameter of the development ([ParseIDToken env]). *)
Definition ParseIDToken' (prov : OIDCProvider) (tok : string)
           (opts : ParseIDTokenOptions) : M (IDToken * UserProvidedData) :=
  log (CallParseIDToken prov tok opts);;
  lift (ParseIDToken env prov tok opts).

(** The row with the given provider-subject and provider-type. *)
Definition find_identity (d : DB) (sub pt : string) : option Identity :=
  List.find (fun i => (ProviderID i == sub) && (Models.Provider i == pt))
            (identities d).

(** Modelled from the spec: what [models.FindIdentityByIdAndProvider],
    defined outside the handler's files, returns.  The identity store's
    [findByProviderAndSubject(tx, subject, providerType)] yields the
    Identity or NotFound; a storage failure is any other error.  The
    result is the Go pair (identity, error). *)
Definition lookup_outcome (d : DB) (sub pt : string)
  : option Identity * option error :=
  match fault_find (faults env) with
  | Some e => (None, Some e)
  | None =>
      match find_identity d sub pt with
      | Some i => (Some i, None)
      | None => (None, Some IdentityNotFoundError)
      end
  end.

(** Modelled from the spec: [models.FindIdentityByIdAndProvider] is
    defined outside the handler's files.  It looks the identity up in
    the transaction. *)
Definition FindIdentityByIdAndProvider (sub pt : string)
  : M (option Identity * option error) :=
  log (CallFindIdentityByIdAndProvider sub pt);;
  do s <- get;
  ret (lookup_outcome (conn s) sub pt).

(** Modelled from the spec: [models.NewIdentity] is defined outside the
    handler's files.  An Identity has an owning user, a provider name,
    the provider-subject and the metadata map.  The constructor is given
    the metadata map only, so the provider-subject is read from it
    ([provider_id_of], which can fail); the identifier is given by the
    storage on creation. *)
Definition NewIdentity (user : User) (pt : string)
           (identityData : gmap string string) : M Identity :=
  log (CallNewIdentity (ID user) pt identityData);;
  do sub <- lift (provider_id_of env identityData);
  ret (mkIdentity "" (ID user) pt sub identityData).

(** Modelled from the spec: [tx.Create] is defined outside the
    handler's files.  The identity store's [create(tx, identity)]
    inserts the row; the storage enforces that (provider,
    provider-subject) is unique.  The row gets its identifier here, and
    the caller's object with it. *)
Definition Create (i : Identity) : M Identity :=
  log (CallCreate i);;
  fail_on (fault_create (faults env));;
  do s <- get;
  if existsb (fun j => (ProviderID j == ProviderID i)
                       && (Models.Provider j == Models.Provider i))
             (identities (conn s))
  then throw (OtherError "duplicate key value violates unique constraint")
  else
    let i' := mkIdentity (new_uuid env) (UserID i) (Models.Provider i)
                         (ProviderID i) (IdentityData i) in
    set_conn (mkDB (identities (conn s) ++ [i']) (users (conn s))
                   (audit_log_entries (conn s)));;
    ret i'.

(** Modelled from the spec: [user.UpdateUserMetaData] is defined
    outside the handler's files.  The user mutator
    [mergeMetadata(tx, data)] merges the data into the user's metadata
    map, inserting new keys and overwriting existing keys with the
    provider's values; the user object is changed first, then its row. *)
Definition UpdateUserMetaData (updates : gmap string string) : M unit :=
  log (CallUpdateUserMetaData updates);;
  do u <- deref_user;
  let u' := mkUser (ID u) (updates ∪ UserMetaData u) (Providers u) in
  set_user u';;
  fail_on (fault_update_meta (faults env));;
  do s <- get;
  set_conn (mkDB (identities (conn s))
                 (alter (fun row => mkUser (ID row) (UserMetaData u')
                                           (Providers row))
                        (ID u) (users (conn s)))
                 (audit_log_entries (conn s))).

Definition add_if_absent (p : string) (l : list string) : list string :=
  if existsb (fun q => q == p) l then l else l ++ [p].

(** Modelled from the spec: [user.UpdateAppMetaDataProviders] is
    defined outside the handler's files.  The user mutator
    [addProvider(tx)] appends the provider-type to the user's provider
    list if absent; it is given the transaction only, so the
    provider-types are those of the user's identities in the
    transaction. *)
Definition UpdateAppMetaDataProviders : M unit :=
  log CallUpdateAppMetaDataProviders;;
  do u <- deref_user;
  do s <- get;
  let mine := List.filter (fun i => UserID i == ID u) (identities (conn s)) in
  let ps := fold_left (fun l i => add_if_absent (Models.Provider i) l)
                      mine (Providers u) in
  let u' := mkUser (ID u) (UserMetaData u) ps in
  set_user u';;
  fail_on (fault_update_providers (faults env));;
  set_conn (mkDB (identities (conn s))
                 (alter (fun row => mkUser (ID row) (UserMetaData row) ps)
                        (ID u) (users (conn s)))
                 (audit_log_entries (conn s))).

(** Modelled from the spec: [models.NewAuditLogEntry] is defined outside
    the handler's files.  The audit store's
    [append(tx, actor, action, targetID, details)] appends one record
    of its arguments to the ordered, append-only log. *)
Definition NewAuditLogEntry (actor : User) (a : AuditAction) (ip : string)
           (traits : gmap string string) : M unit :=
  log (CallNewAuditLogEntry (ID actor) a ip traits);;
  fail_on (fault_audit (faults env));;
  do s <- get;
  set_conn (mkDB (identities (conn s)) (users (conn s))
                 (audit_log_entries (conn s)
                    ++ [mkAuditLogEntry (ID actor) a ip traits])).

(** Modelled from the spec: [db.Transaction] is defined outside the
    handler's files.  The storage transaction
    [withTransaction(func(tx) -> error)] is atomic, all-or-nothing: when
    the function returns an error, or the commit fails, the storage is
    as it was before. *)
Definition Transaction (f : M unit) : M unit :=
  fun s =>
    let rollback e s' :=
      (inl e, mkWorld (conn s) (ctx_user s') (writer s')
                      (calls s' ++ [CallRollback])) in
    match (log CallBegin;; f) s with
    | (inl e, s') => rollback e s'
    | (inr _, s') =>
        match fault_commit (faults env) with
        | Some e => rollback e s'
        | None => log CallCommit s'
        end
    end.

(** Modelled from the spec: [sendJSON] is defined outside the handler's
    files.  It writes the status and the object as the response, or
    fails. *)
Definition sendJSON (st : Z) (u : User) : M unit :=
  log (CallSendJSON st u);;
  fail_on (fault_send (faults env));;
  set_writer (mkResponse st u).

End Collaborators.

(** ** The checks both versions of the handler make *)

(** The two validation branches on the request parameters. *)
Definition validate (idToken prov clientID iss : string) : option error :=
  if idToken == "" then
    Some (badRequestError ErrorCodeValidationFailed "id_token is required")
  else if (prov == "") && ((clientID == "") || (iss == "")) then
    Some (badRequestError ErrorCodeValidationFailed
                          "provider or client_id and issuer are required")
  else None.

(** The inner loop: [for _, aud := range idToken.Audience]. *)
Fixpoint audience_has (auds : list string) (clientID : string) : bool :=
  match auds with
  | [] => false
  | aud :: rest => if aud == clientID then true else audience_has rest clientID
  end.

(** The outer loop: [for _, clientID := range acceptableClientIDs], with
    its [continue] on a blank entry and its [break] on a match. *)
Fixpoint correctAudience (acceptable : list string) (auds : list string)
  : bool :=
  match acceptable with
  | [] => false
  | clientID :: rest =>
      if clientID == "" then correctAudience rest auds
      else if audience_has auds clientID then true
      else correctAudience rest auds
  end.

Definition options_for (accessToken : string) : ParseIDTokenOptions :=
  {| SkipAccessTokenCheck := accessToken == "";
     opt_AccessToken := accessToken |}.

(** ** [internal/api/link-identity-token.go] *)

Module Api.
Section Handler.

Variable env : Env.

(** The function passed to [db.Transaction]. *)
Definition link_tx (user : User) (userData : UserProvidedData)
           (providerType : string) : M unit :=
  do found <- FindIdentityByIdAndProvider env
                (Subject (Metadata userData)) providerType;
  let '(ident, terr) := found in
  match terr with
  | Some terr =>
      if negb (IsNotFoundError terr) then
        throw (WithInternalError
                 (internalServerError "Database error finding identity") terr)
      else ret tt
  | None => ret tt
  end;;
  match ident with
  | Some ident =>
      if UserID ident == ID user then
        throw (unprocessableEntityError ErrorCodeIdentityAlreadyExists
                 "Identity is already linked to this user")
      else
        throw (unprocessableEntityError ErrorCodeIdentityAlreadyExists
                 "Identity is already linked to another user")
  | None => ret tt
  end;;
  let identityData := structs_Map (Metadata userData) in
  do newIdentity <- NewIdentity env user providerType identityData;
  do newIdentity <-
    wrap_err (WithInternalError (internalServerError "Error creating identity"))
             (Create env newIdentity);
  wrap_err (WithInternalError
              (internalServerError "Error updating user metadata"))
           (UpdateUserMetaData env identityData);;
  wrap_err (WithInternalError
              (internalServerError "Error updating user providers"))
           (UpdateAppMetaDataProviders env);;
  NewAuditLogEntry env user UserModifiedAction ""
                   {[ "provider" := providerType ]}.

Definition LinkIdentityWithIDToken : M unit :=
  do user <- getUser;
  match user with
  | None =>
      throw (unprocessableEntityError ErrorCodeUserNotFound
               "Missing authenticated user")
  | Some user =>
      do params <- retrieveRequestParams env decodeIdTokenGrantParams;
      fail_on (validate (IdToken params) (Provider' params)
                        (ClientID params) (Issuer params));;
      do rp <- getProvider' env params;
      do parsed <-
        wrap_err (WithInternalError
                    (oauthError "invalid_request" "Bad ID token"))
                 (ParseIDToken' env (oidcProvider rp) (IdToken params)
                                (options_for (AccessToken params)));
      let '(idToken, userData) := parsed in
      (if negb (correctAudience (acceptableClientIDs rp) (Audience idToken))
       then throw (oauthError "invalid_request"
                              "Unacceptable audience in id_token")
       else ret tt);;
      (if negb (skipNonceCheck rp) && negb (Nonce params == "") then
         if negb (Nonce params == tok_Nonce idToken) then
           throw (oauthError "invalid_nonce" "Invalid nonce")
         else ret tt
       else ret tt);;
      Transaction env (link_tx user userData (providerType rp));;
      do user <- deref_user;
      sendJSON env StatusOK user
  end.

End Handler.
End Api.

(** ** The second version of the handler *)

Module ApiAlt.
Section Handler.

Variable env : Env.

(** The function passed to [db.Transaction]. *)
Definition link_tx (user : User) (userData : UserProvidedData)
           (providerType : string) : M unit :=
  do found <- FindIdentityByIdAndProvider env
                (Subject (Metadata userData)) providerType;
  let '(ident, err) := found in
  match err with
  | Some err =>
      if negb (IsNotFoundError err) then
        throw (WithInternalError
                 (internalServerError "Database error finding identity") err)
      else ret tt
  | None => ret tt
  end;;
  match ident with
  | Some ident =>
      if UserID ident == ID user then
        throw (unprocessableEntityError ErrorCodeIdentityAlreadyExists
                 "Identity is already linked to this user")
      else
        throw (unprocessableEntityError ErrorCodeIdentityAlreadyExists
                 "Identity is already linked to another user")
  | None => ret tt
  end;;
  let identityData := structs_Map (Metadata userData) in
  do newIdentity <- NewIdentity env user providerType identityData;
  do newIdentity <-
    wrap_err (WithInternalError (internalServerError "Error creating identity"))
             (Create env newIdentity);
  wrap_err (WithInternalError
              (internalServerError "Error updating user metadata"))
           (UpdateUserMetaData env identityData);;
  wrap_err (WithInternalError
              (internalServerError "Error updating user providers"))
           (UpdateAppMetaDataProviders env);;
  NewAuditLogEntry env user IdentityLinkAction ""
                   {[ "provider" := providerType;
                      "identity_id" := IdentityID newIdentity ]}.

Definition LinkIdentityWithIDToken : M unit :=
  do params <- retrieveRequestParams env decodeLinkIdentityWithIDTokenParams;
  fail_on (validate (lp_IdToken params) (lp_Provider params)
                    (lp_ClientID params) (lp_Issuer params));;
  do user <- getUser;
  match user with
  | None => throw (unauthorizedError "Missing authenticated user")
  | Some user =>
      let idTokenParams :=
        {| IdToken := lp_IdToken params;
           AccessToken := lp_AccessToken params;
           Nonce := lp_Nonce params;
           Provider' := lp_Provider params;
           ClientID := lp_ClientID params;
           Issuer := lp_Issuer params |} in
      do rp <- getProvider' env idTokenParams;
      do parsed <-
        wrap_err (WithInternalError
                    (oauthError "invalid_request" "Bad ID token"))
                 (ParseIDToken' env (oidcProvider rp) (lp_IdToken params)
                                (options_for (lp_AccessToken params)));
      let '(idToken, userData) := parsed in
      (if negb (correctAudience (acceptableClientIDs rp) (Audience idToken))
       then throw (oauthError "invalid_request"
                              "Unacceptable audience in id_token")
       else ret tt);;
      (if negb (skipNonceCheck rp) && negb (lp_Nonce params == "") then
         if negb (lp_Nonce params == tok_Nonce idToken) then
           throw (oauthError "invalid_request" "Invalid nonce")
         else ret tt
       else ret tt);;
      Transaction env (link_tx user userData (providerType rp));;
      do user <- deref_user;
      sendJSON env StatusOK user
  end.

End Handler.
End ApiAlt.

(** * Vocabulary of the properties *)

(** Appends calls to the trace of a world. *)
Definition logged (s : World) (l : list Call) : World :=
  mkWorld (conn s) (ctx_user s) (writer s) (calls s ++ l).

(** [emits P m]: the calls [m] makes are appended to the trace, and each
    of them satisfies [P]. *)
Definition emits {A} (P : Call -> Prop) (m : M A) : Prop :=
  forall s, exists l, calls (snd (m s)) = calls s ++ l /\ Forall P l.

Definition succeeded {A} (r : error + A) : bool :=
  match r with
  | inr _ => true
  | inl _ => false
  end.

(** The request passes everything up to and including the verification
    of the token: an authenticated [user], a decoded body [b] that
    validates, a resolved provider [rp], a verified token [idToken] with
    its [userData]. *)
Definition verified (env : Env) (s : World) (user : User) (b : Body)
           (rp : Resolved) (idToken : IDToken) (userData : UserProvidedData)
  : Prop :=
  ctx_user s = Some user /\
  body env = inr b /\
  validate (id_token b) (provider b) (client_id b) (issuer b) = None /\
  getProvider env (decodeIdTokenGrantParams b) = inr rp /\
  ParseIDToken env (oidcProvider rp) (id_token b)
               (options_for (access_token b)) = inr (idToken, userData).

(** The nonce check lets the request through. *)
Definition nonce_passes (rp : Resolved) (b : Body) (idToken : IDToken) : bool :=
  negb (negb (skipNonceCheck rp) && negb (nonce b == "")
        && negb (nonce b == tok_Nonce idToken)).

Definition resolver_call (b : Body) : Call :=
  CallGetProvider (decodeIdTokenGrantParams b).

Definition verifier_call (b : Body) (rp : Resolved) : Call :=
  CallParseIDToken (oidcProvider rp) (id_token b)
                   (options_for (access_token b)).

Definition calls_before_policy (b : Body) (rp : Resolved) : list Call :=
  [CallGetUser; CallRetrieveRequestParams; resolver_call b; verifier_call b rp].

(** The second version decodes and validates before it asks for the user. *)
Definition calls_before_policy_alt (b : Body) (rp : Resolved) : list Call :=
  [CallRetrieveRequestParams; CallGetUser; resolver_call b; verifier_call b rp].

(** The run [r], started in [s], made the calls [pre] and then began the
    transaction. *)
Definition enters_transaction (s : World) (pre : list Call)
           (r : (error + unit) * World) : Prop :=
  exists l, calls (snd r) = calls s ++ pre ++ CallBegin :: l.

(** The provider resolver is only called with the parameters of a body
    that validates, the token verifier only with the resolved provider,
    the request's ID token and the options made from its access token. *)
Definition call_ok (env : Env) (c : Call) : Prop :=
  match c with
  | CallGetProvider p =>
      exists b, body env = inr b /\
        validate (id_token b) (provider b) (client_id b) (issuer b) = None /\
        p = decodeIdTokenGrantParams b
  | CallParseIDToken prov tok opts =>
      exists b rp, body env = inr b /\
        validate (id_token b) (provider b) (client_id b) (issuer b) = None /\
        getProvider env (decodeIdTokenGrantParams b) = inr rp /\
        prov = oidcProvider rp /\ tok = id_token b /\
        opts = options_for (access_token b)
  | _ => True
  end.

(** Provider resolution and token verification happen only for a body
    that validates. *)
Definition after_validation (env : Env) (c : Call) : Prop :=
  match c with
  | CallGetProvider _ | CallParseIDToken _ _ _ =>
      exists b, body env = inr b /\
        validate (id_token b) (provider b) (client_id b) (issuer b) = None
  | _ => True
  end.

(** How the token verifier is called for the body [b]. *)
Definition verifier_options_ok (env : Env) (c : Call) : Prop :=
  match c with
  | CallParseIDToken _ tok opts =>
      exists b, body env = inr b /\ tok = id_token b /\
        opt_AccessToken opts = access_token b /\
        (SkipAccessTokenCheck opts = true <-> access_token b = "")
  | _ => True
  end.

(** The identity a successful link creates. *)
Definition linked_identity (env : Env) (user : User) (rp : Resolved)
           (userData : UserProvidedData) (sub : string) : Identity :=
  mkIdentity (new_uuid env) (ID user) (providerType rp) sub
             (structs_Map (Metadata userData)).

(** The provider list after the link: the provider-types of the user's
    identities, each appended if absent. *)
Definition linked_providers (user : User) (ids : list Identity) : list string :=
  fold_left (fun l j => add_if_absent (Models.Provider j) l)
            (List.filter (fun j => UserID j == ID user) ids)
            (Providers user).

(** The same run with a failure injected at the audit-write step. *)
Definition inject_audit_failure (e : error) (env : Env) : Env :=
  {| body := body env;
     getProvider := getProvider env;
     ParseIDToken := ParseIDToken env;
     provider_id_of := provider_id_of env;
     new_uuid := new_uuid env;
     faults :=
       {| fault_find := fault_find (faults env);
          fault_create := fault_create (faults env);
          fault_update_meta := fault_update_meta (faults env);
          fault_update_providers := fault_update_providers (faults env);
          fault_audit := Some e;
          fault_commit := fault_commit (faults env);
          fault_send := fault_send (faults env) |} |}.

(** Two audit records that agree on everything but their content (the
    action kind and the traits). *)
Definition same_entry_but_content (e1 e2 : AuditLogEntry) : Prop :=
  Actor e1 = Actor e2 /\ IPAddress e1 = IPAddress e2.

(** Two worlds with the same state, apart from the content of the audit
    records (and the ghost trace). *)
Definition same_but_audit_content (s1 s2 : World) : Prop :=
  identities (conn s1) = identities (conn s2) /\
  users (conn s1) = users (conn s2) /\
  Forall2 same_entry_but_content (audit_log_entries (conn s1))
          (audit_log_entries (conn s2)) /\
  ctx_user s1 = ctx_user s2 /\
  writer s1 = writer s2.

(** The error for a request without an authenticated user, in either
    convention. *)
Definition missing_user_error (e : error) : Prop :=
  e = unprocessableEntityError ErrorCodeUserNotFound
        "Missing authenticated user" \/
  e = unauthorizedError "Missing authenticated user".

(** A handler that rejects every request without an authenticated user
    with the missing-user error, whatever the body, and changes nothing. *)
Definition rejects_anonymous (handler : Env -> M unit) : Prop :=
  forall env s,
    ctx_user s = None ->
    exists e s',
      handler env s = (inl e, s') /\ missing_user_error e /\
      conn s' = conn s /\ ctx_user s' = ctx_user s /\ writer s' = writer s.

(** An audit record of the link of identity [i] by [user]: the acting
    user, the link-specific action, the provider-type and the identity's
    id. *)
Definition link_audit_record (e : AuditLogEntry) (user : User)
           (i : Identity) : Prop :=
  Actor e = ID user /\
  Action e = IdentityLinkAction /\
  Traits e !! "provider" = Some (Models.Provider i) /\
  Traits e !! "identity_id" = Some (IdentityID i).

(** ** Concrete requests *)

Definition no_faults : Faults :=
  mkFaults None None None None None None None.

Definition alice : User := mkUser "user-1" {[ "name" := "Alice" ]} ["email"].

Definition bob : User := mkUser "user-2" ∅ ["email"].

Definition google_claims : Claims :=
  mkClaims "sub-1" {[ "sub" := "sub-1"; "email" := "alice@example.com" ]}.

Definition google : Resolved :=
  mkResolved "google-oidc" false "google" [""; "clientA"].

Definition token_for_A : IDToken := mkIDToken ["clientA"] "xyz".

Definition token_for_B : IDToken := mkIDToken ["clientB"] "xyz".

Definition sub_claim (m : gmap string string) : error + string :=
  match m !! "sub" with
  | Some sub => inr sub
  | None => inl (OtherError "error missing provider id")
  end.

(** A request for provider [google] with ID token [tok]. *)
Definition link_body (nonce : string) : Body :=
  mkBody "tok" "google" "" nonce "" "".

Definition env_with (b : Body) (tok : IDToken) (f : Faults) : Env :=
  {| body := inr b;
     getProvider := fun _ => inr google;
     ParseIDToken := fun _ _ _ => inr (tok, mkUserData google_claims);
     provider_id_of := sub_claim;
     new_uuid := "identity-1";
     faults := f |}.

(** Scenario A: valid token, audience [clientA], no existing identity. *)
Definition env_ok : Env := env_with (link_body "") token_for_A no_faults.

(** Scenario C: the token's audience is [clientB]. *)
Definition env_wrong_audience : Env :=
  env_with (link_body "") token_for_B no_faults.

(** Scenario D: request nonce [abc], token nonce [xyz]. *)
Definition env_wrong_nonce : Env :=
  env_with (link_body "abc") token_for_A no_faults.

(** The body has no ID token. *)
Definition env_no_token : Env :=
  env_with (mkBody "" "google" "" "" "" "") token_for_A no_faults.

(** The lookup of the identity fails in the storage. *)
Definition env_lookup_fails : Env :=
  env_with (link_body "") token_for_A
           (mkFaults (Some (OtherError "connection reset")) None None None
                     None None None).

Definition empty_db : DB := mkDB [] {[ "user-1" := alice ]} [].

(** The identity of scenario A, already linked to [owner]. *)
Definition linked_to (owner : User) : DB :=
  mkDB [mkIdentity "identity-0" (ID owner) "google" "sub-1"
                   (Fields google_claims)]
       {[ "user-1" := alice; "user-2" := bob ]} [].

Definition world_of (d : DB) (u : option User) : World := mkWorld d u None [].

Definition world_ok : World := world_of empty_db (Some alice).

Definition world_anonymous : World := world_of empty_db None.

(** ** Tactics: symbolic execution of the handlers *)

Create HintDb handler_ops.
Create HintDb storage_ops.

#[global] Hint Unfold bind ret throw get log set_conn set_user set_writer lift
  fail_on wrap_err getUser deref_user retrieveRequestParams getProvider'
  ParseIDToken' : handler_ops.

#[global] Hint Unfold FindIdentityByIdAndProvider NewIdentity Create
  UpdateUserMetaData UpdateAppMetaDataProviders NewAuditLogEntry Transaction
  sendJSON : storage_ops.

Ltac exec :=
  autounfold with handler_ops;
  unfold decodeIdTokenGrantParams, decodeLinkIdentityWithIDTokenParams in *;
  simpl.

Ltac exec_all := autounfold with storage_ops; exec.

(** Case analysis on an innermost branch the goal is stuck on. *)
Ltac branch :=
  match goal with
  | |- context [match ?x with _ => _ end] =>
      lazymatch x with
      | context [match _ with _ => _ end] => fail
      | _ => destruct x eqn:?
      end
  end.

(** All the paths through the code in the goal. *)
Ltac paths := repeat (branch; simpl).

Ltac same_trace :=
  unfold calls_before_policy, calls_before_policy_alt, resolver_call,
    verifier_call, decodeIdTokenGrantParams;
  simpl; repeat (rewrite <- app_assoc; simpl); reflexivity.

Ltac same_world :=
  unfold logged, calls_before_policy, calls_before_policy_alt, resolver_call,
    verifier_call, decodeIdTokenGrantParams; simpl;
  rewrite <- ?app_assoc; simpl; f_equal; congruence.

Ltac run_verified H :=
  let H1 := fresh "Huser" in
  let H2 := fresh "Hbody" in
  let H3 := fresh "Hvalid" in
  let H4 := fresh "Hprov" in
  let H5 := fresh "Hparse" in
  destruct H as (H1 & H2 & H3 & H4 & H5);
  exec; rewrite ?H1, ?H2; simpl; rewrite ?H3; simpl; rewrite ?H1; simpl;
  rewrite H4; simpl; rewrite H5; simpl.

Ltac split_nonce Hn :=
  unfold nonce_passes in Hn;
  match type of Hn with
  | context [skipNonceCheck ?rp] =>
      match type of Hn with
      | context [?n == ""] =>
          match type of Hn with
          | context [n == tok_Nonce ?t] =>
              destruct (skipNonceCheck rp), (n == ""), (n == tok_Nonce t);
              try discriminate Hn; simpl
          end
      end
  end.

Ltac bools :=
  repeat match goal with
    | H : negb _ = false |- _ => apply negb_false_iff in H
    | H : negb _ = true |- _ => apply negb_true_iff in H
    end.

(** * The migration command ([cmd/migrate_cmd.go]) *)

Module Cmd.

(** ** Values of the libraries the command uses *)

(** [url.Userinfo]: [Username()] and [Password()] read these fields. *)
Record Userinfo := mkUserinfo {
  username : string;
  password : string;
  passwordSet : bool
}.

(** [url.UserPassword(username, password)]. *)
Definition UserPassword (name pw : string) : Userinfo :=
  mkUserinfo name pw true.

(** [url.URL]: the scheme and the user information the command reads
    and writes, and the other components it leaves alone. *)
Record URL := mkURL {
  Scheme : string;
  User : option Userinfo;
  Host : string;
  Path : string;
  RawQuery : string;
  Fragment : string
}.

(** The assignment [u.User = ui]. *)
Definition set_User (u : URL) (ui : option Userinfo) : URL :=
  mkURL (Scheme u) ui (Host u) (Path u) (RawQuery u) (Fragment u).

(** [logrus.Level]. *)
Inductive Level :=
| PanicLevel | FatalLevel | ErrorLevel | WarnLevel | InfoLevel | DebugLevel
| TraceLevel.

Definition is_DebugLevel (l : Level) : bool :=
  match l with
  | DebugLevel => true
  | _ => false
  end.

(** The fields of the global configuration the command reads. *)
Record Config := mkConfig {
  DB_Driver : string;
  DB_URL : string;
  DB_Namespace : string;
  Logging_Level : string
}.

(** [pop.ConnectionDetails]. *)
Record ConnectionDetails := mkDetails {
  Dialect : string;
  conn_URL : string;
  Options : gmap string string
}.

(** [strings.Contains]. *)
Fixpoint Contains (s substr : string) : bool :=
  if String.prefix substr s then true
  else match s with
       | EmptyString => false
       | String _ s' => Contains s' substr
       end.

(** ** The process the command runs in *)

(** The calls the command makes to the logger, to [pop] and to the
    database, in order. *)
Inductive Event :=
| Infof (msg : string)
| InfofOptions (msg : string) (opts : gmap string string)
| InfofCount (count : Z) (msg : string)
| Warnf (msg : string) (cause : error)
| Fatalf (msg : string) (cause : error)
| SetLevel (l : Level)
| SetLogger_noop
| NewConnection (deets : ConnectionDetails)
| Open
| Exec (sql : string)
| NewMigrationBox
| Status
| SetSchemaPath (p : string)
| UpTo (step : Z)
| Close.

(** [pop.Debug], the level of the standard logger, and the events. *)
Record Proc := mkProc {
  pop_Debug : bool;
  log_Level : Level;
  events : list Event
}.

(** The configuration, the library functions and the outcomes of the
    database operations of one run. *)
Record Sys := mkSys {
  globalConfig : Config;
  url_Parse : string -> error + URL;
  url_String : URL -> string;
  Query_len : URL -> nat;
  ParseLevel : string -> error + Level;
  NewConnection_err : option error;
  Open_err : option error;
  create_schema_err : option error;
  NewMigrationBox_err : option error;
  search_path_err : option error;
  Status_before_err : option error;
  UpTo_result : error + Z;
  Status_after_err : option error
}.

(** How a run stops early: [os.Exit(1)] after a fatal log line, or a
    panic. *)
Inductive Stop := Exit | Panic.

Definition Run (A : Type) : Type := Proc -> (Stop + A) * Proc.

Definition done {A} (a : A) : Run A := fun p => (inr a, p).

Definition and_then {A B} (m : Run A) (k : A -> Run B) : Run B :=
  fun p =>
    match m p with
    | (inl st, p') => (inl st, p')
    | (inr a, p') => k a p'
    end.

Notation "'run' x <- m ; k" := (and_then m (fun x => k))
  (at level 10, x name, m at level 100, k at level 200).
Notation "m >> k" := (and_then m (fun _ => k))
  (at level 100, k at level 200, right associativity).

Definition emit (e : Event) : Run unit :=
  fun p => (inr tt, mkProc (pop_Debug p) (log_Level p) (events p ++ [e])).

(** [log.Fatalf]: the line is logged and the process exits; deferred
    calls do not run. *)
Definition fatal {A} (msg : string) (cause : error) : Run A :=
  fun p =>
    (inl Exit, mkProc (pop_Debug p) (log_Level p)
                      (events p ++ [Fatalf msg cause])).

Definition panic {A} : Run A := fun p => (inl Panic, p).

Definition set_pop_Debug (b : bool) : Run unit :=
  fun p => (inr tt, mkProc b (log_Level p) (events p)).

(** [log.SetLevel(level)]. *)
Definition set_Level (l : Level) : Run unit :=
  fun p => (inr tt, mkProc (pop_Debug p) l (events p ++ [SetLevel l])).

Definition get_Level : Run Level := fun p => (inr (log_Level p), p).

(** [defer d] before [body]: [d] runs when [body] returns or panics,
    not when the process exits. *)
Definition defer (d : Run unit) (body : Run unit) : Run unit :=
  fun p =>
    match body p with
    | (inl Exit, p') => (inl Exit, p')
    | (inl Panic, p') => (inl Panic, snd (d p'))
    | (inr _, p') => d p'
    end.

Section Command.

Variable sys : Sys.

(** [maskPassword(dbURL)]. *)
Definition maskPassword (dbURL : string) : string :=
  match url_Parse sys dbURL with
  | inl _ => "[unparseable-url]"
  | inr u =>
      let u :=
        match User u with
        | Some ui =>
            let userInfo := username ui in
            let userInfo :=
              if passwordSet ui then userInfo +:+ ":********" else userInfo in
            set_User u (Some (UserPassword (username ui) "********"))
        | None => u
        end in
      url_String sys u
  end.

(** The driver: taken from the URL's scheme when none is configured. *)
Definition resolve_driver : Run string :=
  let cfg := globalConfig sys in
  if (DB_Driver cfg == "") && negb (DB_URL cfg == "") then
    match url_Parse sys (DB_URL cfg) with
    | inl err => fatal "parsing db connection url" err
    | inr u => done (Scheme u)
    end
  else done (DB_Driver cfg).

(** The logging set-up for a configured level. *)
Definition configure_logging : Run unit :=
  let cfg := globalConfig sys in
  if negb (Logging_Level cfg == "") then
    match ParseLevel sys (Logging_Level cfg) with
    | inl err => fatal "Failed to parse log level" err
    | inr level =>
        set_Level level >>
        (if is_DebugLevel level then set_pop_Debug true else done tt) >>
        (if negb (is_DebugLevel level) then emit SetLogger_noop else done tt)
    end
  else done tt.

(** The URL with the application name added to its query. *)
Definition with_application_name (dbURL : string) (nquery : nat) : string :=
  if negb (Nat.eqb nquery 0) then
    dbURL +:+ "&application_name=gotrue_migrations"
  else
    dbURL +:+ "?application_name=gotrue_migrations".

(** The URL with the search path added, when a namespace is set. *)
Definition with_search_path (processedUrl ns : string) : string :=
  if negb (ns == "") then
    if negb (Contains processedUrl "search_path") then
      if Contains processedUrl "?" then
        processedUrl +:+ "&search_path=" +:+ ns
      else
        processedUrl +:+ "?search_path=" +:+ ns
    else processedUrl
  else processedUrl.

(** [deets.Options]. *)
Definition connection_options (ns : string) : gmap string string :=
  {[ "migration_table_name" := "schema_migrations";
     "schema" := ns;
     "Namespace" := ns ]}.

(** A database call whose error is only warned about. *)
Definition exec_or_warn (sql : string) (err : option error) (msg : string)
  : Run unit :=
  emit (Exec sql) >>
  match err with
  | Some e => emit (Warnf msg e)
  | None => done tt
  end.

(** A call whose error is fatal. *)
Definition or_fatal (ev : Event) (err : option error) (msg : string)
  : Run unit :=
  emit ev >>
  match err with
  | Some e => fatal msg e
  | None => done tt
  end.

(** [mig.Status(os.Stdout)], when the logger is at debug level. *)
Definition status_if_debug (err : option error) : Run unit :=
  run level <- get_Level;
  if is_DebugLevel level then or_fatal Status err "migration status"
  else done tt.

(** The first part of [migrate], up to the connection details: the
    driver, the logging set-up, the logged URLs and the processed URL. *)
Definition prepare : Run ConnectionDetails :=
  let cfg := globalConfig sys in
  run driver <- resolve_driver;
  emit (Infof ("Starting migration with driver: " +:+ driver)) >>
  set_pop_Debug true >>
  configure_logging >>
  let maskedURL := maskPassword (DB_URL cfg) in
  emit (Infof ("Database URL: " +:+ maskedURL)) >>
  emit (Infof ("Using DB namespace: " +:+ DB_Namespace cfg)) >>
  run nquery <-
    match url_Parse sys (DB_URL cfg) with
    | inl _ => panic
    | inr u => done (Query_len sys u)
    end;
  let processedUrl := with_application_name (DB_URL cfg) nquery in
  let processedUrl := with_search_path processedUrl (DB_Namespace cfg) in
  emit (Infof ("Processed DB URL: " +:+ maskPassword processedUrl)) >>
  let deets :=
    {| Dialect := driver;
       conn_URL := processedUrl;
       Options := connection_options (DB_Namespace cfg) |} in
  emit (InfofOptions "Connection options: " (Options deets)) >>
  done deets.

(** The part of [migrate] that runs with the connection, under the
    deferred [db.Close()]. *)
Definition run_migrations : Run unit :=
  let cfg := globalConfig sys in
  or_fatal Open (Open_err sys) "checking database connection" >>
  (if negb (DB_Namespace cfg == "") then
     emit (Infof ("Ensuring schema " +:+ DB_Namespace cfg +:+ " exists")) >>
     exec_or_warn ("CREATE SCHEMA IF NOT EXISTS " +:+ DB_Namespace cfg)
                  (create_schema_err sys) "Error creating schema"
   else done tt) >>
  emit (Infof "Reading migrations from executable") >>
  or_fatal NewMigrationBox (NewMigrationBox_err sys)
           "creating db migrator" >>
  (if negb (DB_Namespace cfg == "") then
     exec_or_warn ("SET search_path TO " +:+ DB_Namespace cfg)
                  (search_path_err sys) "Error setting search_path"
   else done tt) >>
  emit (Infof "Before migration status") >>
  status_if_debug (Status_before_err sys) >>
  emit (SetSchemaPath "") >>
  emit (UpTo 0) >>
  match UpTo_result sys with
  | inl err => fatal "running db migrations" err
  | inr count =>
      emit (InfofCount count "GoTrue migrations applied successfully")
  end >>
  emit (Infof "After migration status") >>
  status_if_debug (Status_after_err sys).

Definition migrate : Run unit :=
  run deets <- prepare;
  or_fatal (NewConnection deets) (NewConnection_err sys)
           "opening db connection" >>
  defer (emit Close) run_migrations.

End Command.

Arguments is_DebugLevel : simpl never.
Arguments connection_options : simpl never.
Arguments maskPassword : simpl never.
Arguments with_application_name : simpl never.
Arguments with_search_path : simpl never.

End Cmd.

(** * Vocabulary of the further properties *)

(** ** The handlers *)

(** Calls that reach the storage. *)
Definition storage_call (c : Call) : bool :=
  match c with
  | CallBegin | CallFindIdentityByIdAndProvider _ _ | CallNewIdentity _ _ _
  | CallCreate _ | CallUpdateUserMetaData _ | CallUpdateAppMetaDataProviders
  | CallNewAuditLogEntry _ _ _ _ | CallRollback | CallCommit => true
  | _ => false
  end.

(** The same run with other failures. *)
Definition with_faults (f : Faults) (env : Env) : Env :=
  {| body := body env;
     getProvider := getProvider env;
     ParseIDToken := ParseIDToken env;
     provider_id_of := provider_id_of env;
     new_uuid := new_uuid env;
     faults := f |}.

(** The same run with [tx.Create] failing. *)
Definition inject_create_failure (e : error) (env : Env) : Env :=
  let f := faults env in
  with_faults (mkFaults (fault_find f) (Some e) (fault_update_meta f)
                        (fault_update_providers f) (fault_audit f)
                        (fault_commit f) (fault_send f)) env.

(** The same run with [user.UpdateUserMetaData] failing. *)
Definition inject_metadata_failure (e : error) (env : Env) : Env :=
  let f := faults env in
  with_faults (mkFaults (fault_find f) (fault_create f) (Some e)
                        (fault_update_providers f) (fault_audit f)
                        (fault_commit f) (fault_send f)) env.

(** The same run with [user.UpdateAppMetaDataProviders] failing. *)
Definition inject_providers_failure (e : error) (env : Env) : Env :=
  let f := faults env in
  with_faults (mkFaults (fault_find f) (fault_create f) (fault_update_meta f)
                        (Some e) (fault_audit f)
                        (fault_commit f) (fault_send f)) env.

(** The same run with [sendJSON] failing. *)
Definition inject_send_failure (e : error) (env : Env) : Env :=
  let f := faults env in
  with_faults (mkFaults (fault_find f) (fault_create f) (fault_update_meta f)
                        (fault_update_providers f) (fault_audit f)
                        (fault_commit f) (Some e)) env.

(** The same run with [models.NewIdentity] failing. *)
Definition inject_new_identity_failure (e : error) (env : Env) : Env :=
  {| body := body env;
     getProvider := getProvider env;
     ParseIDToken := ParseIDToken env;
     provider_id_of := fun _ => inl e;
     new_uuid := new_uuid env;
     faults := faults env |}.


(** The provider does not resolve. *)
Definition env_no_provider : Env :=
  {| body := inr (link_body "");
     getProvider := fun _ => inl (OtherError "provider not enabled");
     ParseIDToken := fun _ _ _ => inr (token_for_A, mkUserData google_claims);
     provider_id_of := sub_claim;
     new_uuid := "identity-1";
     faults := no_faults |}.

(** The token does not verify. *)
Definition env_bad_token : Env :=
  {| body := inr (link_body "");
     getProvider := fun _ => inr google;
     ParseIDToken := fun _ _ _ => inl (OtherError "token is expired");
     provider_id_of := sub_claim;
     new_uuid := "identity-1";
     faults := no_faults |}.

(** The provider has only blank client ids. *)
Definition env_blank_clients : Env :=
  {| body := inr (link_body "");
     getProvider :=
       fun _ => inr (mkResolved "google-oidc" false "google" [""; ""]);
     ParseIDToken :=
       fun _ _ _ => inr (mkIDToken [""; "clientA"] "xyz",
                         mkUserData google_claims);
     provider_id_of := sub_claim;
     new_uuid := "identity-1";
     faults := no_faults |}.

(** ** The migration command *)

Module CmdProps.
Import Cmd.

(** The character [c] occurs in [s]. *)
Fixpoint has_char (c : Ascii.ascii) (s : string) : bool :=
  match s with
  | EmptyString => false
  | String d s' => if Ascii.eqb c d then true else has_char c s'
  end.

(** Two parsed URLs that differ at most in the password of their user
    information. *)
Definition same_but_password (u1 u2 : URL) : Prop :=
  Scheme u1 = Scheme u2 /\ Host u1 = Host u2 /\ Path u1 = Path u2 /\
  RawQuery u1 = RawQuery u2 /\ Fragment u1 = Fragment u2 /\
  (username <$> User u1) = (username <$> User u2).

(** The same run with the two schema statements failing or not. *)
Definition with_schema_errors (e1 e2 : option error) (sys : Sys) : Sys :=
  {| globalConfig := globalConfig sys;
     url_Parse := url_Parse sys;
     url_String := url_String sys;
     Query_len := Query_len sys;
     ParseLevel := ParseLevel sys;
     NewConnection_err := NewConnection_err sys;
     Open_err := Open_err sys;
     create_schema_err := e1;
     NewMigrationBox_err := NewMigrationBox_err sys;
     search_path_err := e2;
     Status_before_err := Status_before_err sys;
     UpTo_result := UpTo_result sys;
     Status_after_err := Status_after_err sys |}.

Definition is_Warnf (e : Event) : bool :=
  match e with
  | Warnf _ _ => true
  | _ => false
  end.

Definition is_Status (e : Event) : bool :=
  match e with
  | Status => true
  | _ => false
  end.

Definition is_Exec (e : Event) : bool :=
  match e with
  | Exec _ => true
  | _ => false
  end.

(** The events of a run that are calls to [pop] or to the database. *)
Definition is_db_event (e : Event) : bool :=
  match e with
  | NewConnection _ | Open | Exec _ | NewMigrationBox | Status
  | SetSchemaPath _ | UpTo _ | Close => true
  | _ => false
  end.

(** The driver the command ends up with. *)
Definition driver_of (sys : Sys) (u : URL) : string :=
  let cfg := globalConfig sys in
  if (DB_Driver cfg == "") && negb (DB_URL cfg == "") then Scheme u
  else DB_Driver cfg.

(** The level of the standard logger once logging is set up. *)
Definition level_after_setup (sys : Sys) (p : Proc) : Level :=
  if negb (Logging_Level (globalConfig sys) == "") then
    match ParseLevel sys (Logging_Level (globalConfig sys)) with
    | inr l => l
    | inl _ => log_Level p
    end
  else log_Level p.

(** The process with one more event. *)
Definition add_event (p : Proc) (e : Event) : Proc :=
  mkProc (pop_Debug p) (log_Level p) (events p ++ [e]).

(** The connection details [migrate] makes for a parsed URL. *)
Definition details_for (sys : Sys) (u : URL) : ConnectionDetails :=
  let cfg := globalConfig sys in
  {| Dialect := driver_of sys u;
     conn_URL :=
       with_search_path
         (with_application_name (DB_URL cfg) (Query_len sys u))
         (DB_Namespace cfg);
     Options := connection_options (DB_Namespace cfg) |}.

(** What the calls made with the connection, started at [p], look like:
    no second connection and no close; the status only at debug level;
    only the two schema statements, and only with a namespace. *)
Definition migration_event_ok (sys : Sys) (p : Proc) (e : Event) : Prop :=
  let ns := DB_Namespace (globalConfig sys) in
  match e with
  | Close | NewConnection _ | SetLevel _ | SetLogger_noop => False
  | Status => is_DebugLevel (log_Level p) = true
  | Exec sql =>
      ns <> "" /\
      (sql = "CREATE SCHEMA IF NOT EXISTS " +:+ ns \/
       sql = "SET search_path TO " +:+ ns)
  | UpTo n => n = 0
  | SetSchemaPath path => path = ""
  | _ => True
  end.

(** The events that are not warnings. *)
Definition not_warning (e : Event) : bool := negb (is_Warnf e).

(** Two processes that differ at most in the warnings logged. *)
Definition same_but_warnings (p p' : Proc) : Prop :=
  pop_Debug p = pop_Debug p' /\
  log_Level p = log_Level p' /\
  List.filter not_warning (events p) = List.filter not_warning (events p').

(** Two computations that, from such processes, end the same way in such
    processes. *)
Definition alike {A} (m m' : Run A) : Prop :=
  forall p p',
    same_but_warnings p p' ->
    fst (m p) = fst (m' p') /\
    same_but_warnings (snd (m p)) (snd (m' p')).

(** A toy URL parser and printer for concrete runs: one known URL. *)
Definition demo_url : URL :=
  mkURL "postgres" (Some (mkUserinfo "auth_admin" "hunter2" true))
        "db:5432" "/postgres" "" "".

Definition demo_Parse (s : string) : error + URL :=
  if s == "postgres://auth_admin:hunter2@db:5432/postgres" then inr demo_url
  else if s == "postgres://auth_admin@db:5432/postgres" then
    inr (set_User demo_url (Some (mkUserinfo "auth_admin" "" false)))
  else if Contains s "://" then inr (mkURL "postgres" None s "" "" "")
  else inl (OtherError "missing protocol scheme").

Definition demo_String (u : URL) : string :=
  Scheme u +:+ "://"
  +:+ match User u with
      | Some ui =>
          username ui
          +:+ (if passwordSet ui then ":" +:+ password ui else "") +:+ "@"
      | None => ""
      end
  +:+ Host u +:+ Path u.

Definition demo_ParseLevel (s : string) : error + Level :=
  if s == "debug" then inr DebugLevel
  else if s == "info" then inr InfoLevel
  else inl (OtherError "not a valid logrus Level").

Definition demo_sys (cfg : Config) : Sys :=
  {| globalConfig := cfg;
     url_Parse := demo_Parse;
     url_String := demo_String;
     Query_len := fun _ => 0%nat;
     ParseLevel := demo_ParseLevel;
     NewConnection_err := None;
     Open_err := None;
     create_schema_err := None;
     NewMigrationBox_err := None;
     search_path_err := None;
     Status_before_err := None;
     UpTo_result := inr 3;
     Status_after_err := None |}.

Definition demo_config : Config :=
  mkConfig "" "postgres://auth_admin:hunter2@db:5432/postgres" "auth" "debug".

Definition fresh_proc : Proc := mkProc false InfoLevel [].

(** A configuration with a driver and a URL that does not parse. *)
Definition unparseable_config : Config :=
  mkConfig "postgres" "db.internal/postgres" "auth" "info".

End CmdProps.

Create HintDb cmd_ops.

#[global] Hint Unfold Cmd.done Cmd.and_then Cmd.emit Cmd.fatal Cmd.panic
  Cmd.set_pop_Debug Cmd.set_Level Cmd.get_Level Cmd.defer Cmd.resolve_driver
  Cmd.configure_logging Cmd.exec_or_warn Cmd.or_fatal Cmd.status_if_debug
  : cmd_ops.

Ltac cmd_exec :=
  unfold Cmd.migrate, Cmd.prepare, Cmd.run_migrations;
  autounfold with cmd_ops; simpl.

(** Boolean tests in the hypotheses, as propositions. *)
Ltac boolp :=
  repeat match goal with
    | H : _ && _ = true |- _ => apply andb_true_iff in H; destruct H
    | H : _ && _ = false |- _ => apply andb_false_iff in H
    | H : negb _ = true |- _ => apply negb_true_iff in H
    | H : negb _ = false |- _ => apply negb_false_iff in H
    | H : (_ == _) = true |- _ => apply String.eqb_eq in H
    | H : (_ == _) = false |- _ => apply String.eqb_neq in H
    end.

Ltac same_events := simpl; repeat (rewrite <- app_assoc; simpl); reflexivity.

(** Proof steps for the handlers' runs. *)
Ltac checks_hold :=
  do 5 eexists;
  unfold verified, nonce_passes, decodeIdTokenGrantParams;
  bools; simpl; repeat split; try eassumption; try reflexivity;
  match goal with
  | |- negb (negb (skipNonceCheck ?r) && negb (?n == "")
             && negb (?n == ?t)) = true =>
      destruct (skipNonceCheck r), (n == ""), (n == t);
      simpl in *; congruence
  end.

Ltac no_storage_call :=
  let c := fresh "c" in
  let Hin := fresh "Hin" in
  let Hc := fresh "Hc" in
  intros (c & Hin & Hc); simpl in Hin;
  repeat (destruct Hin as [<- | Hin]; [discriminate Hc |]);
  contradiction.

Ltac failed_step :=
  exec_all; unfold lookup_outcome; simpl;
  paths; intros H; simpl in *; simplify_eq;
  (eexists; split; [reflexivity |]; simpl; auto).


(** * Properties *)

(** ** String comparison and the pure checks *)

Lemma streq_true (a b : string) : (a == b) = true <-> a = b.
Proof. apply String.eqb_eq. Qed.

Lemma streq_false (a b : string) : (a == b) = false <-> a <> b.
Proof. apply String.eqb_neq. Qed.

Lemma audience_has_elem (auds : list string) (clientID : string) :
  audience_has auds clientID = true <-> clientID ∈ auds.
Proof.
  induction auds as [|aud rest IH]; simpl.
  - split; [discriminate | intros H; inversion H].
  - destruct (aud == clientID) eqn:E.
    + apply streq_true in E. subst. split; [intros _; left | trivial].
    + apply streq_false in E. rewrite IH. split.
      * intros H. now right.
      * intros H. inversion H; subst; [congruence | assumption].
Qed.

(** The nested loops find a match exactly when a non-blank acceptable id
    is equal to an element of the audience. *)
Lemma correctAudience_spec (acceptable auds : list string) :
  correctAudience acceptable auds = true <->
  exists clientID aud,
    clientID ∈ acceptable /\ clientID <> "" /\ aud ∈ auds /\ aud = clientID.
Proof.
  induction acceptable as [|c rest IH]; simpl.
  - split; [discriminate | intros (x & a & H & _); inversion H].
  - destruct (c == "") eqn:Eblank.
    + apply streq_true in Eblank. subst c. rewrite IH. split.
      * intros (x & a & Hin & Hne & Ha). exists x, a. split; [now right | auto].
      * intros (x & a & Hin & Hne & Ha). exists x, a.
        inversion Hin; subst; [congruence | auto].
    + apply streq_false in Eblank.
      destruct (audience_has auds c) eqn:Ehas.
      * apply audience_has_elem in Ehas. split; [intros _ | trivial].
        exists c, c. repeat split; [left | | ]; auto.
      * rewrite IH. split.
        -- intros (x & a & Hin & Hne & Ha). exists x, a.
           split; [now right | auto].
        -- intros (x & a & Hin & Hne & Ha & Heq). subst a.
           inversion Hin; subst.
           ++ apply audience_has_elem in Ha. congruence.
           ++ exists x, x. auto.
Qed.

Lemma validate_invalid (idToken prov clientID iss : string) :
  (idToken = "" \/ (prov = "" /\ (clientID = "" \/ iss = ""))) ->
  exists msg,
    validate idToken prov clientID iss
    = Some (badRequestError ErrorCodeValidationFailed msg).
Proof.
  unfold validate. intros H.
  destruct (idToken == "") eqn:E1; [eauto |].
  apply streq_false in E1.
  destruct H as [H | (Hp & Hci)]; [contradiction |].
  subst prov. simpl.
  destruct Hci as [-> | ->]; simpl; [eauto |].
  rewrite orb_true_r. eauto.
Qed.

Lemma validate_None (idToken prov clientID iss : string) :
  validate idToken prov clientID iss = None <->
  ~ (idToken = "" \/ (prov = "" /\ (clientID = "" \/ iss = ""))).
Proof.
  unfold validate.
  destruct (idToken == "") eqn:E1.
  { apply streq_true in E1. split; [discriminate | intros H; exfalso; auto]. }
  apply streq_false in E1.
  destruct (prov == "") eqn:E2; simpl.
  - apply streq_true in E2.
    destruct (clientID == "") eqn:E3; simpl.
    { apply streq_true in E3. split; [discriminate | intros H; exfalso; auto]. }
    apply streq_false in E3.
    destruct (iss == "") eqn:E4.
    { apply streq_true in E4. split; [discriminate | intros H; exfalso; auto]. }
    apply streq_false in E4.
    split; [intros _ | trivial]. intros [H | (_ & [H | H])]; contradiction.
  - apply streq_false in E2.
    split; [intros _ | trivial]. intros [H | (H & _)]; contradiction.
Qed.

Lemma validate_Some (idToken prov clientID iss : string) (e : error) :
  validate idToken prov clientID iss = Some e ->
  (idToken = "" \/ (prov = "" /\ (clientID = "" \/ iss = ""))) /\
  exists msg, e = badRequestError ErrorCodeValidationFailed msg.
Proof.
  unfold validate.
  destruct (idToken == "") eqn:E1.
  { apply streq_true in E1. intros [= <-]. split; [auto | eauto]. }
  destruct (prov == "") eqn:E2; simpl; [| discriminate].
  apply streq_true in E2.
  destruct (clientID == "") eqn:E3; simpl.
  { apply streq_true in E3. intros [= <-]. split; [auto | eauto]. }
  destruct (iss == "") eqn:E4; [| discriminate].
  apply streq_true in E4. intros [= <-]. split; [auto | eauto].
Qed.

Lemma nonce_passes_spec (rp : Resolved) (b : Body) (idToken : IDToken) :
  nonce_passes rp b idToken = true <->
  skipNonceCheck rp = true \/ nonce b = "" \/ nonce b = tok_Nonce idToken.
Proof.
  unfold nonce_passes. rewrite <- !streq_true.
  destruct (skipNonceCheck rp), (nonce b == ""), (nonce b == tok_Nonce idToken);
    simpl; intuition congruence.
Qed.

(** ** The provider list *)

Lemma add_if_absent_keeps (p q : string) (l : list string) :
  q ∈ l -> q ∈ add_if_absent p l.
Proof.
  unfold add_if_absent. destruct (existsb _ l); [trivial |].
  intros H. apply elem_of_app. now left.
Qed.

Lemma add_if_absent_adds (p : string) (l : list string) :
  p ∈ add_if_absent p l.
Proof.
  unfold add_if_absent. destruct (existsb (fun q => q == p) l) eqn:E.
  - apply existsb_exists in E. destruct E as (q & Hin & Hq).
    apply streq_true in Hq. subst q. now apply list_elem_of_In.
  - apply elem_of_app. right. left.
Qed.

Lemma fold_add_keeps (ids : list Identity) (acc : list string) (p : string) :
  p ∈ acc ->
  p ∈ fold_left (fun l j => add_if_absent (Models.Provider j) l) ids acc.
Proof.
  revert acc. induction ids as [|i ids IH]; simpl; intros acc H; [trivial |].
  apply IH. now apply add_if_absent_keeps.
Qed.

Lemma fold_add_adds (ids : list Identity) (acc : list string) (i : Identity) :
  In i ids ->
  Models.Provider i
  ∈ fold_left (fun l j => add_if_absent (Models.Provider j) l) ids acc.
Proof.
  revert acc. induction ids as [|j ids IH]; simpl; intros acc H;
    [contradiction |].
  destruct H as [-> | H].
  - apply fold_add_keeps, add_if_absent_adds.
  - now apply IH.
Qed.

(** The provider-type of an identity of the user is in the list. *)
Lemma linked_providers_elem (user : User) (ids : list Identity) (i : Identity) :
  In i ids -> UserID i = ID user ->
  Models.Provider i ∈ linked_providers user ids.
Proof.
  intros Hin Hu. unfold linked_providers. apply fold_add_adds.
  apply filter_In. split; [assumption |]. now apply streq_true.
Qed.

(** ** Worlds *)

Lemma same_entries_refl (l : list AuditLogEntry) :
  Forall2 same_entry_but_content l l.
Proof. induction l; constructor; [split |]; auto. Qed.

Lemma same_entries_snoc (l : list AuditLogEntry) (e1 e2 : AuditLogEntry) :
  same_entry_but_content e1 e2 ->
  Forall2 same_entry_but_content (l ++ [e1]) (l ++ [e2]).
Proof.
  intros H. apply Forall2_app; [apply same_entries_refl |].
  constructor; [assumption | constructor].
Qed.

(** ** Calls of the resolver and of the verifier *)

Lemma handler_calls env : emits (call_ok env) (Api.LinkIdentityWithIDToken env).
Proof.
  intros s. unfold Api.LinkIdentityWithIDToken, Api.link_tx. exec_all.
  paths; (eexists; split; [same_trace |]);
    repeat constructor; simpl; unfold decodeIdTokenGrantParams; eauto 10.
Qed.

Lemma handler_calls_alt env :
  emits (call_ok env) (ApiAlt.LinkIdentityWithIDToken env).
Proof.
  intros s. unfold ApiAlt.LinkIdentityWithIDToken, ApiAlt.link_tx. exec_all.
  paths; (eexists; split; [same_trace |]);
    repeat constructor; simpl; unfold decodeIdTokenGrantParams; eauto 10.
Qed.

Lemma emits_weaken {A} (P Q : Call -> Prop) (m : M A) :
  (forall c, P c -> Q c) -> emits P m -> emits Q m.
Proof.
  intros HPQ Hm s. destruct (Hm s) as (l & E & F).
  exists l. split; [assumption |]. eapply Forall_impl; eauto.
Qed.

Lemma call_ok_after_validation env c : call_ok env c -> after_validation env c.
Proof.
  destruct c; simpl; trivial.
  - intros (b & H1 & H2 & _). eauto.
  - intros (b & rp & H1 & H2 & _). eauto.
Qed.

Lemma call_ok_verifier_options env c :
  call_ok env c -> verifier_options_ok env c.
Proof.
  destruct c; simpl; trivial.
  intros (b & rp & H1 & H2 & H3 & H4 & H5 & H6). subst.
  exists b. simpl. repeat split; trivial; apply streq_true.
Qed.

(** ** Early returns *)

Lemma no_user env s :
  ctx_user s = None ->
  Api.LinkIdentityWithIDToken env s
  = (inl (unprocessableEntityError ErrorCodeUserNotFound
            "Missing authenticated user"),
     logged s [CallGetUser]).
Proof.
  intros H. unfold Api.LinkIdentityWithIDToken. exec. rewrite H.
  f_equal. same_world.
Qed.

Lemma invalid_params env s user b e :
  ctx_user s = Some user ->
  body env = inr b ->
  validate (id_token b) (provider b) (client_id b) (issuer b) = Some e ->
  Api.LinkIdentityWithIDToken env s
  = (inl e, logged s [CallGetUser; CallRetrieveRequestParams]).
Proof.
  intros H1 H2 H3. unfold Api.LinkIdentityWithIDToken. exec.
  rewrite H1, H2. simpl. rewrite H3. f_equal. same_world.
Qed.

Lemma bad_body_alt env s e :
  body env = inl e ->
  ApiAlt.LinkIdentityWithIDToken env s
  = (inl e, logged s [CallRetrieveRequestParams]).
Proof.
  intros H. unfold ApiAlt.LinkIdentityWithIDToken. exec. rewrite H.
  reflexivity.
Qed.

Lemma invalid_params_alt env s b e :
  body env = inr b ->
  validate (id_token b) (provider b) (client_id b) (issuer b) = Some e ->
  ApiAlt.LinkIdentityWithIDToken env s
  = (inl e, logged s [CallRetrieveRequestParams]).
Proof.
  intros H2 H3. unfold ApiAlt.LinkIdentityWithIDToken. exec.
  rewrite H2. simpl. rewrite H3. reflexivity.
Qed.

Lemma no_user_alt env s b :
  body env = inr b ->
  validate (id_token b) (provider b) (client_id b) (issuer b) = None ->
  ctx_user s = None ->
  ApiAlt.LinkIdentityWithIDToken env s
  = (inl (unauthorizedError "Missing authenticated user"),
     logged s [CallRetrieveRequestParams; CallGetUser]).
Proof.
  intros H2 H3 H1. unfold ApiAlt.LinkIdentityWithIDToken. exec.
  rewrite H2. simpl. rewrite H3. simpl. rewrite H1. f_equal. same_world.
Qed.

(** ** The policy checks and the transaction *)

Section Stages.

Variables (env : Env) (s : World) (user : User) (b : Body) (rp : Resolved)
          (idToken : IDToken) (userData : UserProvidedData).

Hypothesis Hverified : verified env s user b rp idToken userData.

Lemma stage_audience :
  correctAudience (acceptableClientIDs rp) (Audience idToken) = false ->
  Api.LinkIdentityWithIDToken env s
  = (inl (oauthError "invalid_request" "Unacceptable audience in id_token"),
     logged s (calls_before_policy b rp)).
Proof.
  intros Haud. unfold Api.LinkIdentityWithIDToken.
  run_verified Hverified. rewrite Haud. simpl. f_equal. same_world.
Qed.

Lemma stage_audience_alt :
  correctAudience (acceptableClientIDs rp) (Audience idToken) = false ->
  ApiAlt.LinkIdentityWithIDToken env s
  = (inl (oauthError "invalid_request" "Unacceptable audience in id_token"),
     logged s (calls_before_policy_alt b rp)).
Proof.
  intros Haud. unfold ApiAlt.LinkIdentityWithIDToken.
  run_verified Hverified. rewrite Haud. simpl. f_equal. same_world.
Qed.

Lemma stage_nonce :
  correctAudience (acceptableClientIDs rp) (Audience idToken) = true ->
  nonce_passes rp b idToken = false ->
  Api.LinkIdentityWithIDToken env s
  = (inl (oauthError "invalid_nonce" "Invalid nonce"),
     logged s (calls_before_policy b rp)).
Proof.
  intros Haud Hn. unfold Api.LinkIdentityWithIDToken.
  run_verified Hverified. rewrite Haud. simpl.
  split_nonce Hn. f_equal. same_world.
Qed.

Lemma stage_nonce_alt :
  correctAudience (acceptableClientIDs rp) (Audience idToken) = true ->
  nonce_passes rp b idToken = false ->
  ApiAlt.LinkIdentityWithIDToken env s
  = (inl (oauthError "invalid_request" "Invalid nonce"),
     logged s (calls_before_policy_alt b rp)).
Proof.
  intros Haud Hn. unfold ApiAlt.LinkIdentityWithIDToken.
  run_verified Hverified. rewrite Haud. simpl.
  split_nonce Hn. f_equal. same_world.
Qed.

(** Once both policy checks pass, what is left is the transaction and
    the response. *)
Lemma stage_transaction :
  correctAudience (acceptableClientIDs rp) (Audience idToken) = true ->
  nonce_passes rp b idToken = true ->
  Api.LinkIdentityWithIDToken env s
  = (Transaction env (Api.link_tx env user userData (providerType rp));;
     do u <- deref_user;
     sendJSON env StatusOK u) (logged s (calls_before_policy b rp)).
Proof.
  intros Haud Hn. unfold Api.LinkIdentityWithIDToken.
  run_verified Hverified. rewrite Haud. simpl.
  split_nonce Hn;
    match goal with
    | |- ?lhs = _ =>
        match lhs with
        | context [Transaction env _ ?w] =>
            replace (logged s (calls_before_policy b rp)) with w
              by same_world
        end
    end; reflexivity.
Qed.

Lemma stage_transaction_alt :
  correctAudience (acceptableClientIDs rp) (Audience idToken) = true ->
  nonce_passes rp b idToken = true ->
  ApiAlt.LinkIdentityWithIDToken env s
  = (Transaction env (ApiAlt.link_tx env user userData (providerType rp));;
     do u <- deref_user;
     sendJSON env StatusOK u) (logged s (calls_before_policy_alt b rp)).
Proof.
  intros Haud Hn. unfold ApiAlt.LinkIdentityWithIDToken.
  run_verified Hverified. rewrite Haud. simpl.
  split_nonce Hn;
    match goal with
    | |- ?lhs = _ =>
        match lhs with
        | context [Transaction env _ ?w] =>
            replace (logged s (calls_before_policy_alt b rp)) with w
              by same_world
        end
    end; reflexivity.
Qed.

(** The transaction is entered as soon as both policy checks pass. *)
Lemma stage_enters :
  correctAudience (acceptableClientIDs rp) (Audience idToken) = true ->
  nonce_passes rp b idToken = true ->
  enters_transaction s (calls_before_policy b rp)
                     (Api.LinkIdentityWithIDToken env s).
Proof.
  intros Haud Hn. rewrite stage_transaction by assumption.
  unfold enters_transaction, Api.link_tx, logged. exec_all.
  paths; eexists; same_trace.
Qed.

Lemma stage_enters_alt :
  correctAudience (acceptableClientIDs rp) (Audience idToken) = true ->
  nonce_passes rp b idToken = true ->
  enters_transaction s (calls_before_policy_alt b rp)
                     (ApiAlt.LinkIdentityWithIDToken env s).
Proof.
  intros Haud Hn. rewrite stage_transaction_alt by assumption.
  unfold enters_transaction, ApiAlt.link_tx, logged. exec_all.
  paths; eexists; same_trace.
Qed.

End Stages.

(** The function passed to the transaction does not write a response. *)
Lemma link_tx_writer env user userData pt s :
  writer (snd (Api.link_tx env user userData pt s)) = writer s.
Proof.
  unfold Api.link_tx. exec_all. paths; reflexivity.
Qed.

(** ** Successful links *)

(** What a successful run of the handler has done. *)
Lemma success_inv env s s' :
  Api.LinkIdentityWithIDToken env s = (inr tt, s') ->
  exists user b rp idToken userData sub,
    verified env s user b rp idToken userData /\
    correctAudience (acceptableClientIDs rp) (Audience idToken) = true /\
    nonce_passes rp b idToken = true /\
    provider_id_of env (structs_Map (Metadata userData)) = inr sub /\
    let i := linked_identity env user rp userData sub in
    let meta := structs_Map (Metadata userData) ∪ UserMetaData user in
    let ps := linked_providers user (identities (conn s) ++ [i]) in
    let u' := mkUser (ID user) meta ps in
    identities (conn s') = identities (conn s) ++ [i] /\
    users (conn s')
    = alter (fun row => mkUser (ID row) (UserMetaData row) ps) (ID user)
        (alter (fun row => mkUser (ID row) meta (Providers row)) (ID user)
               (users (conn s))) /\
    audit_log_entries (conn s')
    = audit_log_entries (conn s)
      ++ [mkAuditLogEntry (ID user) UserModifiedAction ""
                          {[ "provider" := providerType rp ]}] /\
    ctx_user s' = Some u' /\
    writer s' = Some (mkResponse StatusOK u') /\
    exists l, calls s' = calls s ++ l /\ In CallCommit l.
Proof.
  unfold Api.LinkIdentityWithIDToken, Api.link_tx. exec_all.
  paths; intros H; simpl in *; simplify_eq.
  all: do 6 eexists.
  all: unfold verified, nonce_passes, linked_identity, linked_providers,
         decodeIdTokenGrantParams.
  all: bools.
  all: simpl; repeat split; try eassumption; try reflexivity.
  all: try match goal with
         | |- negb (negb (skipNonceCheck ?r) && negb (?n == "")
                    && negb (?n == ?t)) = true =>
             destruct (skipNonceCheck r), (n == ""), (n == t);
             simpl in *; congruence
         end.
  all: eexists; split; [same_trace | simpl; auto 20].
Qed.

(** A successful run of the second version appends one audit record of
    the link. *)
Lemma audit_record_written_alt env s s' :
  ApiAlt.LinkIdentityWithIDToken env s = (inr tt, s') ->
  exists user i e,
    ctx_user s = Some user /\
    identities (conn s') = identities (conn s) ++ [i] /\
    audit_log_entries (conn s') = audit_log_entries (conn s) ++ [e] /\
    link_audit_record e user i.
Proof.
  unfold ApiAlt.LinkIdentityWithIDToken, ApiAlt.link_tx. exec_all.
  paths; intros H; simpl in *; simplify_eq.
  all: do 3 eexists; split; [reflexivity |].
  all: simpl; split; [reflexivity |]; split; [reflexivity |].
  all: unfold link_audit_record; simpl.
  all: split; [reflexivity |]; split; [reflexivity |].
  all: split; [apply lookup_insert_eq |].
  all: rewrite lookup_insert_ne by discriminate; apply lookup_singleton_eq.
Qed.

(** ** The verifier is reached when the provider resolves *)

Lemma reaches_verifier env s user b rp :
  ctx_user s = Some user ->
  body env = inr b ->
  validate (id_token b) (provider b) (client_id b) (issuer b) = None ->
  getProvider env (decodeIdTokenGrantParams b) = inr rp ->
  exists l,
    calls (snd (Api.LinkIdentityWithIDToken env s))
    = calls s ++ calls_before_policy b rp ++ l.
Proof.
  intros H1 H2 H3 H4. unfold Api.LinkIdentityWithIDToken, Api.link_tx.
  exec_all. rewrite H1, H2. simpl. rewrite H3. simpl. rewrite H4. simpl.
  paths; eexists; same_trace.
Qed.

Lemma reaches_verifier_alt env s user b rp :
  ctx_user s = Some user ->
  body env = inr b ->
  validate (id_token b) (provider b) (client_id b) (issuer b) = None ->
  getProvider env (decodeIdTokenGrantParams b) = inr rp ->
  exists l,
    calls (snd (ApiAlt.LinkIdentityWithIDToken env s))
    = calls s ++ calls_before_policy_alt b rp ++ l.
Proof.
  intros H1 H2 H3 H4. unfold ApiAlt.LinkIdentityWithIDToken, ApiAlt.link_tx.
  exec_all. rewrite H2. simpl. rewrite H3. simpl. rewrite H1. simpl.
  rewrite H4. simpl.
  paths; eexists; same_trace.
Qed.

(** * The claims *)

(** C7. Request validation fails with [ValidationFailed] exactly when
    the ID token is empty, or the provider name is empty and one of
    client id and issuer is empty.  When it fails the handler returns
    the error at once: nothing is changed, and neither the provider
    resolver nor the token verifier has been called (the first version
    has only asked for the user and decoded the body, the second has
    only decoded the body).  In every run, the resolver and the verifier
    are called only for a body that validates. *)
Theorem request_validation (env : Env) (s : World) (b : Body) :
  let invalid :=
    id_token b = "" \/
    (provider b = "" /\ (client_id b = "" \/ issuer b = "")) in
  let result := validate (id_token b) (provider b) (client_id b) (issuer b) in
  ((exists msg, result = Some (badRequestError ErrorCodeValidationFailed msg))
   <-> invalid) /\
  (result = None <-> ~ invalid) /\
  (body env = inr b -> forall e, result = Some e ->
     ApiAlt.LinkIdentityWithIDToken env s
     = (inl e, logged s [CallRetrieveRequestParams]) /\
     forall user, ctx_user s = Some user ->
       Api.LinkIdentityWithIDToken env s
       = (inl e, logged s [CallGetUser; CallRetrieveRequestParams])) /\
  emits (after_validation env) (Api.LinkIdentityWithIDToken env) /\
  emits (after_validation env) (ApiAlt.LinkIdentityWithIDToken env).
Proof.
  intros invalid result. subst invalid result.
  split; [| split; [| split; [| split]]].
  - split.
    + intros (msg & H). now apply validate_Some in H.
    + apply validate_invalid.
  - apply validate_None.
  - intros Hb e He. split.
    + now apply invalid_params_alt with (b := b).
    + intros user Hu. now apply invalid_params with (user := user) (b := b).
  - eapply emits_weaken; [apply call_ok_after_validation | apply handler_calls].
  - eapply emits_weaken;
      [apply call_ok_after_validation | apply handler_calls_alt].
Qed.

Lemma request_validation_witness :
  ApiAlt.LinkIdentityWithIDToken env_no_token world_ok
  = (inl (badRequestError ErrorCodeValidationFailed "id_token is required"),
     logged world_ok [CallRetrieveRequestParams]) /\
  Api.LinkIdentityWithIDToken env_no_token world_ok
  = (inl (badRequestError ErrorCodeValidationFailed "id_token is required"),
     logged world_ok [CallGetUser; CallRetrieveRequestParams]).
Proof.
  destruct (request_validation env_no_token world_ok
              (mkBody "" "google" "" "" "" ""))
    as (_ & _ & Hfail & _).
  destruct (Hfail eq_refl _ eq_refl) as (Halt & Hmain).
  split; [exact Halt | exact (Hmain alice eq_refl)].
Defined.

(** C8, as the code has it.  Without an authenticated user nothing is
    changed and the request fails.  The handler of
    [internal/api/link-identity-token.go] asks for the user first and
    fails with the user-not-found error whatever the body is.  The second
    version decodes and validates the body first: it fails with the
    unauthorized error when the body decodes and validates, and with the
    decoding or validation error otherwise. *)
Theorem missing_user :
  rejects_anonymous Api.LinkIdentityWithIDToken /\
  forall env s,
    ctx_user s = None ->
    Api.LinkIdentityWithIDToken env s
    = (inl (unprocessableEntityError ErrorCodeUserNotFound
              "Missing authenticated user"),
       logged s [CallGetUser]) /\
    exists e l,
      ApiAlt.LinkIdentityWithIDToken env s = (inl e, logged s l) /\
      (forall e', body env = inl e' -> e = e') /\
      (forall b e', body env = inr b ->
         validate (id_token b) (provider b) (client_id b) (issuer b) = Some e'
         -> e = e') /\
      (forall b, body env = inr b ->
         validate (id_token b) (provider b) (client_id b) (issuer b) = None
         -> e = unauthorizedError "Missing authenticated user").
Proof.
  split.
  { intros env s Hu. do 2 eexists. split; [now apply no_user |].
    split; [now left | simpl; auto]. }
  intros env s Hu. split; [now apply no_user |].
  destruct (body env) as [e | b] eqn:Hb.
  - exists e, [CallRetrieveRequestParams]. split; [now apply bad_body_alt |].
    split; [intros e' [= <-]; reflexivity |].
    split; intros; discriminate.
  - destruct (validate (id_token b) (provider b) (client_id b) (issuer b))
      as [e |] eqn:Hv.
    + exists e, [CallRetrieveRequestParams].
      split; [now apply invalid_params_alt with (b := b) |].
      split; [intros; discriminate |].
      split; [intros b' e' [= <-]; congruence | intros b' [= <-]; congruence].
    + exists (unauthorizedError "Missing authenticated user"),
        [CallRetrieveRequestParams; CallGetUser].
      split; [now apply no_user_alt with (b := b) |].
      split; [intros; discriminate |].
      split; [intros b' e' [= <-]; congruence | trivial].
Qed.

Lemma missing_user_witness :
  Api.LinkIdentityWithIDToken env_no_token world_anonymous
  = (inl (unprocessableEntityError ErrorCodeUserNotFound
            "Missing authenticated user"),
     logged world_anonymous [CallGetUser]) /\
  exists l,
    ApiAlt.LinkIdentityWithIDToken env_ok world_anonymous
    = (inl (unauthorizedError "Missing authenticated user"),
       logged world_anonymous l).
Proof.
  destruct missing_user as (_ & H).
  split; [exact (proj1 (H env_no_token world_anonymous eq_refl)) |].
  destruct (H env_ok world_anonymous eq_refl)
    as (_ & e & l & Hrun & _ & _ & Hauth).
  exists l. rewrite <- (Hauth (link_body "") eq_refl eq_refl). exact Hrun.
Defined.

(** C8 as stated fails on the second version of the handler: without a
    user and without an ID token in the body it returns the validation
    error, not the missing-user error. *)
Lemma missing_user_counterexample :
  ~ rejects_anonymous ApiAlt.LinkIdentityWithIDToken.
Proof.
  intros H.
  destruct (H env_no_token world_anonymous eq_refl)
    as (e & s' & Hrun & He & _).
  rewrite (invalid_params_alt env_no_token world_anonymous
             (mkBody "" "google" "" "" "" "") _ eq_refl eq_refl) in Hrun.
  inversion Hrun; subst e. destruct He as [He | He]; discriminate He.
Qed.

(** C10. In every run of either version of the handler, every call of
    the token verifier gets the request's ID token and access token,
    with the access-token cross-check skipped exactly when the access
    token is the empty string; and the verifier is called, with these
    options, as soon as the user is authenticated, the body validates
    and the provider resolves. *)
Theorem verifier_cross_check (env : Env) (s : World) :
  let called l :=
    forall user b rp,
      ctx_user s = Some user ->
      body env = inr b ->
      validate (id_token b) (provider b) (client_id b) (issuer b) = None ->
      getProvider env (decodeIdTokenGrantParams b) = inr rp ->
      In (CallParseIDToken (oidcProvider rp) (id_token b)
            {| SkipAccessTokenCheck := access_token b == "";
               opt_AccessToken := access_token b |}) l /\
      ((access_token b == "") = true <-> access_token b = "") in
  (exists l,
     calls (snd (Api.LinkIdentityWithIDToken env s)) = calls s ++ l /\
     Forall (verifier_options_ok env) l /\ called l) /\
  (exists l,
     calls (snd (ApiAlt.LinkIdentityWithIDToken env s)) = calls s ++ l /\
     Forall (verifier_options_ok env) l /\ called l).
Proof.
  intros called. subst called. split.
  - destruct (emits_weaken _ _ _ (call_ok_verifier_options env)
                (handler_calls env) s) as (l & Hl & Hok).
    exists l. repeat split; trivial; [| apply streq_true | apply streq_true].
    destruct (reaches_verifier env s user b rp) as (l' & Hl'); trivial.
    rewrite Hl' in Hl. apply app_inv_head in Hl. subst l.
    unfold calls_before_policy, verifier_call, options_for. simpl. auto.
  - destruct (emits_weaken _ _ _ (call_ok_verifier_options env)
                (handler_calls_alt env) s) as (l & Hl & Hok).
    exists l. repeat split; trivial; [| apply streq_true | apply streq_true].
    destruct (reaches_verifier_alt env s user b rp) as (l' & Hl'); trivial.
    rewrite Hl' in Hl. apply app_inv_head in Hl. subst l.
    unfold calls_before_policy_alt, verifier_call, options_for. simpl. auto.
Qed.

Lemma verifier_cross_check_witness :
  exists l,
    calls (snd (Api.LinkIdentityWithIDToken env_ok world_ok))
    = calls world_ok ++ l /\
    In (CallParseIDToken "google-oidc" "tok" (mkOpts true "")) l.
Proof.
  destruct (verifier_cross_check env_ok world_ok)
    as ((l & Hl & _ & Hcalled) & _).
  exists l. split; [exact Hl |].
  exact (proj1 (Hcalled alice (link_body "") google
                        eq_refl eq_refl eq_refl eq_refl)).
Defined.

(** C3. For a verified token the audience check passes exactly when a
    non-blank acceptable client id is equal to an element of the token's
    audience.  When it does not pass, both versions of the handler fail
    with the unacceptable-audience error and have changed nothing (they
    have only read the user, the body, the provider and the token),
    whatever the nonce and the storage are; when it passes and the nonce
    check passes, the transaction is entered. *)
Theorem audience_enforcement (env : Env) (s : World) (user : User) (b : Body)
        (rp : Resolved) (idToken : IDToken) (userData : UserProvidedData) :
  verified env s user b rp idToken userData ->
  let ok := correctAudience (acceptableClientIDs rp) (Audience idToken) in
  (ok = true <->
   exists clientID aud,
     clientID ∈ acceptableClientIDs rp /\ clientID <> "" /\
     aud ∈ Audience idToken /\ aud = clientID) /\
  (ok = false ->
   Api.LinkIdentityWithIDToken env s
   = (inl (oauthError "invalid_request" "Unacceptable audience in id_token"),
      logged s (calls_before_policy b rp)) /\
   ApiAlt.LinkIdentityWithIDToken env s
   = (inl (oauthError "invalid_request" "Unacceptable audience in id_token"),
      logged s (calls_before_policy_alt b rp))) /\
  (ok = true -> nonce_passes rp b idToken = true ->
   enters_transaction s (calls_before_policy b rp)
                      (Api.LinkIdentityWithIDToken env s) /\
   enters_transaction s (calls_before_policy_alt b rp)
                      (ApiAlt.LinkIdentityWithIDToken env s)).
Proof.
  intros Hv ok. subst ok. split; [apply correctAudience_spec | split].
  - intros Hno. split.
    + eapply stage_audience; eassumption.
    + eapply stage_audience_alt; eassumption.
  - intros Hok Hn. split.
    + eapply stage_enters; eassumption.
    + eapply stage_enters_alt; eassumption.
Qed.

Lemma audience_enforcement_witness :
  Api.LinkIdentityWithIDToken env_wrong_audience world_ok
  = (inl (oauthError "invalid_request" "Unacceptable audience in id_token"),
     logged world_ok (calls_before_policy (link_body "") google)).
Proof.
  assert (Hv : verified env_wrong_audience world_ok alice (link_body "")
                        google token_for_B (mkUserData google_claims))
    by (repeat split; reflexivity).
  destruct (audience_enforcement _ _ _ _ _ _ _ Hv) as (_ & Hfail & _).
  exact (proj1 (Hfail eq_refl)).
Defined.

(** C4. For a verified token with an acceptable audience: when the
    provider resolver allows skipping the nonce check, or the request has
    no nonce, the nonce is not checked and the transaction is entered;
    otherwise the handler fails with the invalid-nonce error unless the
    request nonce equals the token's nonce, and has then changed nothing.
    (The error is the OAuth error [invalid_nonce] in
    [internal/api/link-identity-token.go] and the OAuth error
    [invalid_request] in the second version, both described as
    "Invalid nonce".) *)
Theorem nonce_enforcement (env : Env) (s : World) (user : User) (b : Body)
        (rp : Resolved) (idToken : IDToken) (userData : UserProvidedData) :
  verified env s user b rp idToken userData ->
  correctAudience (acceptableClientIDs rp) (Audience idToken) = true ->
  let entered :=
    enters_transaction s (calls_before_policy b rp)
                       (Api.LinkIdentityWithIDToken env s) /\
    enters_transaction s (calls_before_policy_alt b rp)
                       (ApiAlt.LinkIdentityWithIDToken env s) in
  (skipNonceCheck rp = true \/ nonce b = "" -> entered) /\
  (skipNonceCheck rp = false -> nonce b <> "" ->
   nonce b = tok_Nonce idToken -> entered) /\
  (skipNonceCheck rp = false -> nonce b <> "" ->
   nonce b <> tok_Nonce idToken ->
   Api.LinkIdentityWithIDToken env s
   = (inl (oauthError "invalid_nonce" "Invalid nonce"),
      logged s (calls_before_policy b rp)) /\
   ApiAlt.LinkIdentityWithIDToken env s
   = (inl (oauthError "invalid_request" "Invalid nonce"),
      logged s (calls_before_policy_alt b rp))).
Proof.
  intros Hv Haud entered. subst entered.
  assert (Henter : nonce_passes rp b idToken = true ->
                   enters_transaction s (calls_before_policy b rp)
                     (Api.LinkIdentityWithIDToken env s) /\
                   enters_transaction s (calls_before_policy_alt b rp)
                     (ApiAlt.LinkIdentityWithIDToken env s)).
  { intros Hn. split.
    - eapply stage_enters; eassumption.
    - eapply stage_enters_alt; eassumption. }
  split; [| split].
  - intros H. apply Henter, nonce_passes_spec. tauto.
  - intros _ _ H. apply Henter, nonce_passes_spec. tauto.
  - intros Hskip Hblank Hne.
    assert (Hn : nonce_passes rp b idToken = false).
    { destruct (nonce_passes rp b idToken) eqn:E; [| reflexivity].
      apply nonce_passes_spec in E. destruct E as [E | [E | E]]; congruence. }
    split.
    + eapply stage_nonce; eassumption.
    + eapply stage_nonce_alt; eassumption.
Qed.

Lemma nonce_enforcement_witness :
  Api.LinkIdentityWithIDToken env_wrong_nonce world_ok
  = (inl (oauthError "invalid_nonce" "Invalid nonce"),
     logged world_ok (calls_before_policy (link_body "abc") google)) /\
  ApiAlt.LinkIdentityWithIDToken env_wrong_nonce world_ok
  = (inl (oauthError "invalid_request" "Invalid nonce"),
     logged world_ok (calls_before_policy_alt (link_body "abc") google)).
Proof.
  assert (Hv : verified env_wrong_nonce world_ok alice (link_body "abc")
                        google token_for_A (mkUserData google_claims))
    by (repeat split; reflexivity).
  destruct (nonce_enforcement _ _ _ _ _ _ _ Hv eq_refl) as (_ & _ & Hfail).
  apply Hfail; [reflexivity | discriminate | discriminate].
Defined.

(** The lookup has one of two shapes: an identity, or an error. *)
Lemma lookup_outcome_shape env d sub pt :
  (exists i, lookup_outcome env d sub pt = (Some i, None)) \/
  (exists e, lookup_outcome env d sub pt = (None, Some e)).
Proof.
  unfold lookup_outcome.
  destruct (fault_find (faults env)); [eauto |].
  destruct (find_identity d sub pt); eauto.
Qed.

(** C1. Inside the transaction the identity is looked up by the token's
    subject and the provider-type.  When the lookup finds an identity
    the handler fails with [IdentityAlreadyExists], "already linked to
    this user" when the identity's owner is the requesting user and
    "already linked to another user" otherwise; a lookup error that is
    not a not-found error is returned as an internal error that wraps
    it.  In both cases the transaction stops after the lookup: no
    identity is made or created.  Only the not-found outcome goes on to
    the creation of the identity.  The lookup has no other outcome. *)
Theorem identity_conflict (env : Env) (s : World) (user : User) (b : Body)
        (rp : Resolved) (idToken : IDToken) (userData : UserProvidedData) :
  verified env s user b rp idToken userData ->
  correctAudience (acceptableClientIDs rp) (Audience idToken) = true ->
  nonce_passes rp b idToken = true ->
  let sub := Subject (Metadata userData) in
  let pt := providerType rp in
  let outcome := lookup_outcome env (conn s) sub pt in
  let stopped :=
    logged s (calls_before_policy b rp
              ++ [CallBegin; CallFindIdentityByIdAndProvider sub pt;
                  CallRollback]) in
  (forall i, outcome = (Some i, None) -> UserID i = ID user ->
     Api.LinkIdentityWithIDToken env s
     = (inl (unprocessableEntityError ErrorCodeIdentityAlreadyExists
               "Identity is already linked to this user"), stopped)) /\
  (forall i, outcome = (Some i, None) -> UserID i <> ID user ->
     Api.LinkIdentityWithIDToken env s
     = (inl (unprocessableEntityError ErrorCodeIdentityAlreadyExists
               "Identity is already linked to another user"), stopped)) /\
  (forall e, outcome = (None, Some e) -> IsNotFoundError e = false ->
     Api.LinkIdentityWithIDToken env s
     = (inl (WithInternalError
               (internalServerError "Database error finding identity") e),
        stopped)) /\
  (forall e, outcome = (None, Some e) -> IsNotFoundError e = true ->
     exists l,
       calls (snd (Api.LinkIdentityWithIDToken env s))
       = calls s ++ calls_before_policy b rp
         ++ [CallBegin; CallFindIdentityByIdAndProvider sub pt;
             CallNewIdentity (ID user) pt (structs_Map (Metadata userData))]
         ++ l) /\
  ((exists i, outcome = (Some i, None)) \/
   (exists e, outcome = (None, Some e))).
Proof.
  intros Hv Haud Hn sub pt outcome stopped.
  subst sub pt outcome stopped.
  rewrite (stage_transaction _ _ _ _ _ _ _ Hv Haud Hn).
  destruct Hv as (Hu & _).
  unfold Api.link_tx, logged. exec_all.
  split; [| split; [| split; [| split]]].
  - intros i Hi Hown. rewrite Hi. simpl.
    apply streq_true in Hown. rewrite Hown. f_equal. same_world.
  - intros i Hi Hown. rewrite Hi. simpl.
    apply streq_false in Hown. rewrite Hown. f_equal. same_world.
  - intros e He Hnf. rewrite He. simpl. rewrite Hnf. simpl.
    f_equal. same_world.
  - intros e He Hnf. rewrite He. simpl. rewrite Hnf. simpl.
    paths; eexists; same_trace.
  - apply lookup_outcome_shape.
Qed.

Lemma identity_conflict_witness :
  Api.LinkIdentityWithIDToken env_ok (world_of (linked_to bob) (Some alice))
  = (inl (unprocessableEntityError ErrorCodeIdentityAlreadyExists
            "Identity is already linked to another user"),
     logged (world_of (linked_to bob) (Some alice))
            (calls_before_policy (link_body "") google
             ++ [CallBegin; CallFindIdentityByIdAndProvider "sub-1" "google";
                 CallRollback])).
Proof.
  assert (Hv : verified env_ok (world_of (linked_to bob) (Some alice)) alice
                        (link_body "") google token_for_A
                        (mkUserData google_claims))
    by (repeat split; reflexivity).
  destruct (identity_conflict _ _ _ _ _ _ _ Hv eq_refl eq_refl)
    as (_ & Hother & _).
  apply (Hother (mkIdentity "identity-0" "user-2" "google" "sub-1"
                            (Fields google_claims)));
    [reflexivity | discriminate].
Defined.

(** C2. The steps of the link run inside one transaction.  When any of
    them fails (the lookup of the identity, its creation, the merge of
    the metadata, the update of the provider list, the audit record),
    the handler returns that error, the storage is as it was before the
    request and no response has been written.  In particular, take a
    request that links successfully and inject a failure at the
    audit-write step: the audit write is reached and fails, the handler
    returns its error, and the identities, the users (metadata and
    provider lists) and the audit log of the storage are unchanged. *)
Theorem transactional_rollback (env : Env) (s : World) (user : User)
        (b : Body) (rp : Resolved) (idToken : IDToken)
        (userData : UserProvidedData) :
  verified env s user b rp idToken userData ->
  correctAudience (acceptableClientIDs rp) (Audience idToken) = true ->
  nonce_passes rp b idToken = true ->
  (forall e s1,
     Api.link_tx env user userData (providerType rp)
                 (logged s (calls_before_policy b rp ++ [CallBegin]))
     = (inl e, s1) ->
     exists s',
       Api.LinkIdentityWithIDToken env s = (inl e, s') /\
       conn s' = conn s /\ writer s' = writer s) /\
  (forall s',
     Api.LinkIdentityWithIDToken env s = (inr tt, s') ->
     forall e, exists s'' l,
       Api.LinkIdentityWithIDToken (inject_audit_failure e env) s
       = (inl e, s'') /\
       identities (conn s'') = identities (conn s) /\
       users (conn s'') = users (conn s) /\
       audit_log_entries (conn s'') = audit_log_entries (conn s) /\
       writer s'' = writer s /\
       calls s'' = calls s ++ l /\
       In (CallNewAuditLogEntry (ID user) UserModifiedAction ""
                                {[ "provider" := providerType rp ]}) l /\
       In CallRollback l).
Proof.
  intros Hv Haud Hn. split.
  - intros e s1 Hfail.
    rewrite (stage_transaction _ _ _ _ _ _ _ Hv Haud Hn).
    pose proof (link_tx_writer env user userData (providerType rp)
                  (logged s (calls_before_policy b rp ++ [CallBegin]))) as Hw.
    rewrite Hfail in Hw. simpl in Hw.
    unfold bind at 1. unfold Transaction. unfold bind at 1, log at 1.
    unfold logged in *. simpl. rewrite <- app_assoc. rewrite Hfail.
    eexists. split; [reflexivity |]. simpl. auto.
  - destruct Hv as (Hu & Hb & Hval & Hp & Hparse).
    unfold Api.LinkIdentityWithIDToken, Api.link_tx, inject_audit_failure.
    exec_all. unfold lookup_outcome. simpl.
    rewrite Hu, Hb. simpl. rewrite Hval. simpl. rewrite Hp. simpl.
    rewrite Hparse. simpl.
    paths; intros s' H; simpl in *; simplify_eq; intros e'.
    all: eexists; eexists; split; [reflexivity |]; simpl.
    all: repeat split; try reflexivity.
    all: try same_trace.
    all: simpl; auto 20.
Qed.

Lemma transactional_rollback_witness :
  exists s'',
    Api.LinkIdentityWithIDToken
      (inject_audit_failure (OtherError "audit log unavailable") env_ok)
      world_ok
    = (inl (OtherError "audit log unavailable"), s'') /\
    identities (conn s'') = [] /\
    users (conn s'') = users empty_db /\
    audit_log_entries (conn s'') = [].
Proof.
  assert (Hv : verified env_ok world_ok alice (link_body "") google
                        token_for_A (mkUserData google_claims))
    by (repeat split; reflexivity).
  destruct (transactional_rollback _ _ _ _ _ _ _ Hv eq_refl eq_refl)
    as (_ & Hinject).
  destruct (Hinject (snd (Api.LinkIdentityWithIDToken env_ok world_ok))
                    ltac:(vm_compute; reflexivity)
                    (OtherError "audit log unavailable"))
    as (s'' & l & Hrun & Hi & Husers & Ha & _).
  exists s''. repeat split; assumption.
Defined.

(** C9. On every successful link the transaction has committed, and for
    the authenticated [user] and the verified token's [userData]: one
    Identity row was created for the user and the provider-type, holding
    the token's claim metadata; the same metadata was merged into the
    user's metadata map (its keys win); the provider-type is in the
    user's provider list; the user's row holds the new metadata and
    provider list; and the response is 200 with the mutated user object
    as its body. *)
Theorem successful_link (env : Env) (s s' : World) :
  Api.LinkIdentityWithIDToken env s = (inr tt, s') ->
  exists user b rp idToken userData i u',
    verified env s user b rp idToken userData /\
    (exists l, calls s' = calls s ++ l /\ In CallCommit l) /\
    identities (conn s') = identities (conn s) ++ [i] /\
    UserID i = ID user /\
    Models.Provider i = providerType rp /\
    IdentityData i = structs_Map (Metadata userData) /\
    ID u' = ID user /\
    UserMetaData u' = structs_Map (Metadata userData) ∪ UserMetaData user /\
    (forall k v, structs_Map (Metadata userData) !! k = Some v ->
                 UserMetaData u' !! k = Some v) /\
    providerType rp ∈ Providers u' /\
    (forall row, users (conn s) !! ID user = Some row ->
       users (conn s') !! ID user
       = Some (mkUser (ID row) (UserMetaData u') (Providers u'))) /\
    ctx_user s' = Some u' /\
    writer s' = Some (mkResponse StatusOK u').
Proof.
  intros Hrun.
  destruct (success_inv env s s' Hrun)
    as (user & b & rp & idToken & userData & sub & Hv & _ & _ & _ & H).
  simpl in H.
  destruct H as (Hids & Husers & _ & Huser & Hw & Hcommit).
  exists user, b, rp, idToken, userData,
    (linked_identity env user rp userData sub),
    (mkUser (ID user) (structs_Map (Metadata userData) ∪ UserMetaData user)
            (linked_providers user
               (identities (conn s)
                ++ [linked_identity env user rp userData sub]))).
  split_and!; simpl; trivial.
  - intros k v Hk. now apply lookup_union_Some_l.
  - change (providerType rp)
      with (Models.Provider (linked_identity env user rp userData sub)).
    apply linked_providers_elem; [| reflexivity].
    apply in_app_iff. right. now left.
  - intros row Hrow. rewrite Husers, !lookup_alter_eq, Hrow. reflexivity.
Qed.

Lemma successful_link_witness :
  exists u',
    writer (snd (Api.LinkIdentityWithIDToken env_ok world_ok))
    = Some (mkResponse StatusOK u') /\
    "google" ∈ Providers u' /\
    UserMetaData u' !! "email" = Some "alice@example.com".
Proof.
  destruct (successful_link env_ok world_ok
              (snd (Api.LinkIdentityWithIDToken env_ok world_ok))
              ltac:(vm_compute; reflexivity))
    as (user & b & rp & idToken & userData & i & u' & Hv & _ & _ & _ & _ & _
        & _ & _ & Hmeta & Hprov & _ & _ & Hw).
  destruct Hv as (_ & Hb & _ & Hp & Hparse).
  injection Hb as <-. injection Hp as <-. injection Hparse as <- <-.
  exists u'. split; [exact Hw |]. split; [exact Hprov |].
  apply Hmeta. vm_compute. reflexivity.
Defined.

(** On every successful link the handler of
    [internal/api/link-identity-token.go] appends one audit record: the
    acting user, the generic user-modified action, and the provider-type
    as its only trait. *)
Lemma audit_record_written env s s' :
  Api.LinkIdentityWithIDToken env s = (inr tt, s') ->
  exists user e,
    ctx_user s = Some user /\
    audit_log_entries (conn s') = audit_log_entries (conn s) ++ [e] /\
    Actor e = ID user /\
    Action e = UserModifiedAction /\
    Traits e !! "identity_id" = None.
Proof.
  intros Hrun.
  destruct (success_inv env s s' Hrun)
    as (user & b & rp & idToken & userData & sub & Hv & _ & _ & _ & H).
  simpl in H. destruct H as (_ & _ & Haudit & _).
  destruct Hv as (Hu & _).
  eexists user, _. split; [exact Hu |]. split; [exact Haudit |].
  simpl. split; [reflexivity |]. split; [reflexivity |].
  now apply lookup_singleton_ne.
Qed.

(** C5 at scenario A (a valid token for [clientA], no identity yet).
    Both versions of the handler link the identity and write one audit
    record for the acting user.  The second version records the
    link-specific action, the provider-type and the id of the new
    identity; the handler of [internal/api/link-identity-token.go]
    records the generic user-modified action and the provider-type only,
    without the identity's id. *)
Theorem audit_record_of_link :
  let run := Api.LinkIdentityWithIDToken env_ok world_ok in
  let run_alt := ApiAlt.LinkIdentityWithIDToken env_ok world_ok in
  let i := mkIdentity "identity-1" "user-1" "google" "sub-1"
                      (Fields google_claims) in
  fst run = inr tt /\ fst run_alt = inr tt /\
  identities (conn (snd run)) = [i] /\
  identities (conn (snd run_alt)) = [i] /\
  audit_log_entries (conn (snd run))
  = [mkAuditLogEntry "user-1" UserModifiedAction ""
                     {[ "provider" := "google" ]}] /\
  (forall e, In e (audit_log_entries (conn (snd run))) ->
             ~ link_audit_record e alice i) /\
  audit_log_entries (conn (snd run_alt))
  = [mkAuditLogEntry "user-1" IdentityLinkAction ""
                     {[ "provider" := "google";
                        "identity_id" := "identity-1" ]}] /\
  (forall e, In e (audit_log_entries (conn (snd run_alt))) ->
             link_audit_record e alice i).
Proof.
  cbv zeta.
  assert (Hrun : audit_log_entries
                   (conn (snd (Api.LinkIdentityWithIDToken env_ok world_ok)))
                 = [mkAuditLogEntry "user-1" UserModifiedAction ""
                                    {[ "provider" := "google" ]}])
    by (vm_compute; reflexivity).
  assert (Halt : audit_log_entries
                   (conn (snd (ApiAlt.LinkIdentityWithIDToken env_ok world_ok)))
                 = [mkAuditLogEntry "user-1" IdentityLinkAction ""
                                    {[ "provider" := "google";
                                       "identity_id" := "identity-1" ]}])
    by (vm_compute; reflexivity).
  split_and!; try (vm_compute; reflexivity); try assumption.
  - intros e He (_ & Hact & _). rewrite Hrun in He.
    destruct He as [<- | []]. discriminate Hact.
  - intros e He. rewrite Halt in He. destruct He as [<- | []].
    split_and!; vm_compute; reflexivity.
Qed.

(** C6 as stated fails: for a request without an authenticated user the
    two versions return different errors (422 with the user-not-found
    code, and 401). *)
Lemma versions_counterexample :
  fst (Api.LinkIdentityWithIDToken env_ok world_anonymous)
  = inl (HTTPError 422 (Some ErrorCodeUserNotFound)
                   "Missing authenticated user" None) /\
  fst (ApiAlt.LinkIdentityWithIDToken env_ok world_anonymous)
  = inl (HTTPError 401 None "Missing authenticated user" None) /\
  fst (Api.LinkIdentityWithIDToken env_ok world_anonymous)
  <> fst (ApiAlt.LinkIdentityWithIDToken env_ok world_anonymous).
Proof.
  split; [vm_compute; reflexivity |].
  split; [vm_compute; reflexivity |].
  vm_compute. discriminate.
Qed.

(** C6, as the code has it.  For every request the two versions of the
    handler both succeed or both fail, and leave the same state (the
    identities, the users, the user object of the context, the response)
    apart from the content of the audit records.  They return the same
    error as well, except without an authenticated user (the first
    version checks the user first and returns 422 user-not-found, the
    second validates the body first and returns 401) and on a nonce
    mismatch (OAuth error [invalid_nonce] in the first version,
    [invalid_request] in the second). *)
Theorem versions_agree (env : Env) (s : World) :
  let run := Api.LinkIdentityWithIDToken env s in
  let run_alt := ApiAlt.LinkIdentityWithIDToken env s in
  succeeded (fst run) = succeeded (fst run_alt) /\
  same_but_audit_content (snd run) (snd run_alt) /\
  (ctx_user s <> None ->
   fst run <> inl (oauthError "invalid_nonce" "Invalid nonce") ->
   fst run = fst run_alt).
Proof.
  unfold Api.LinkIdentityWithIDToken, Api.link_tx,
    ApiAlt.LinkIdentityWithIDToken, ApiAlt.link_tx.
  exec_all.
  paths; simpl in *; simplify_eq.
  all: unfold same_but_audit_content; simpl; repeat split;
    auto using same_entries_refl;
    try (apply same_entries_snoc; split; reflexivity); congruence.
Qed.

Lemma versions_agree_witness :
  fst (Api.LinkIdentityWithIDToken env_lookup_fails world_ok)
  = fst (ApiAlt.LinkIdentityWithIDToken env_lookup_fails world_ok).
Proof.
  destruct (versions_agree env_lookup_fails world_ok) as (_ & _ & Hsame).
  apply Hsame; [discriminate | vm_compute; discriminate].
Defined.

(** * End-to-end scenarios *)

(** Scenario A: the link succeeds with 200, the user has the new
    identity and [google] in the provider list, and there is one audit
    record. *)
Example scenario_link :
  let s' := snd (Api.LinkIdentityWithIDToken env_ok world_ok) in
  fst (Api.LinkIdentityWithIDToken env_ok world_ok) = inr tt /\
  (status <$> writer s') = Some 200 /\
  (Providers <$> ctx_user s') = Some ["email"; "google"] /\
  length (identities (conn s')) = 1%nat /\
  length (audit_log_entries (conn s')) = 1%nat.
Proof. vm_compute. repeat split. Qed.

(** Scenario B: the same token replayed for the same user is a conflict
    with the user's own identity; no identity and no audit record is
    added. *)
Example scenario_replay :
  let s1 := snd (Api.LinkIdentityWithIDToken env_ok world_ok) in
  let s2 := snd (Api.LinkIdentityWithIDToken env_ok s1) in
  fst (Api.LinkIdentityWithIDToken env_ok s1)
  = inl (unprocessableEntityError ErrorCodeIdentityAlreadyExists
           "Identity is already linked to this user") /\
  conn s2 = conn s1.
Proof. vm_compute. repeat split. Qed.

(** * Further properties of the handlers *)

(** ** Failures of the collaborators *)

(** X1. An error of the body decoder or of the provider resolver is
    returned as it is, by both versions of the handler; the token
    verifier and the storage are not reached and nothing is changed.
    (The first version decodes the body only for an authenticated
    user.) *)
Theorem collaborator_errors_surface (env : Env) (s : World) (user : User) :
  ctx_user s = Some user ->
  (forall e, body env = inl e ->
     Api.LinkIdentityWithIDToken env s
     = (inl e, logged s [CallGetUser; CallRetrieveRequestParams]) /\
     ApiAlt.LinkIdentityWithIDToken env s
     = (inl e, logged s [CallRetrieveRequestParams])) /\
  (forall b e, body env = inr b ->
     validate (id_token b) (provider b) (client_id b) (issuer b) = None ->
     getProvider env (decodeIdTokenGrantParams b) = inl e ->
     Api.LinkIdentityWithIDToken env s
     = (inl e, logged s [CallGetUser; CallRetrieveRequestParams;
                         resolver_call b]) /\
     ApiAlt.LinkIdentityWithIDToken env s
     = (inl e, logged s [CallRetrieveRequestParams; CallGetUser;
                         resolver_call b])).
Proof.
  intros Hu. split.
  - intros e Hb. split.
    + unfold Api.LinkIdentityWithIDToken. exec. rewrite Hu, Hb.
      f_equal. same_world.
    + unfold ApiAlt.LinkIdentityWithIDToken. exec. rewrite Hb. reflexivity.
  - intros b e Hb Hv Hp. split.
    + unfold Api.LinkIdentityWithIDToken. exec. rewrite Hu, Hb. simpl.
      rewrite Hv. simpl. rewrite Hp. f_equal. same_world.
    + unfold ApiAlt.LinkIdentityWithIDToken. exec. rewrite Hb. simpl.
      rewrite Hv. simpl. rewrite Hu. simpl. rewrite Hp. f_equal. same_world.
Qed.

Lemma collaborator_errors_surface_witness :
  Api.LinkIdentityWithIDToken env_no_provider world_ok
  = (inl (OtherError "provider not enabled"),
     logged world_ok [CallGetUser; CallRetrieveRequestParams;
                      resolver_call (link_body "")]).
Proof.
  destruct (collaborator_errors_surface env_no_provider world_ok alice eq_refl)
    as (_ & H).
  exact (proj1 (H (link_body "") _ eq_refl eq_refl eq_refl)).
Defined.

(** X2. When the token verifier fails, both versions return the OAuth
    error [invalid_request] "Bad ID token" with the verifier's error
    attached as its internal cause; the audience and nonce checks and
    the transaction are not reached and nothing is changed. *)
Theorem verifier_error_wrapped (env : Env) (s : World) (user : User)
        (b : Body) (rp : Resolved) (e : error) :
  ctx_user s = Some user ->
  body env = inr b ->
  validate (id_token b) (provider b) (client_id b) (issuer b) = None ->
  getProvider env (decodeIdTokenGrantParams b) = inr rp ->
  ParseIDToken env (oidcProvider rp) (id_token b)
               (options_for (access_token b)) = inl e ->
  Api.LinkIdentityWithIDToken env s
  = (inl (OAuthError "invalid_request" "Bad ID token" (Some e)),
     logged s (calls_before_policy b rp)) /\
  ApiAlt.LinkIdentityWithIDToken env s
  = (inl (OAuthError "invalid_request" "Bad ID token" (Some e)),
     logged s (calls_before_policy_alt b rp)).
Proof.
  intros Hu Hb Hv Hp Ht. split.
  - unfold Api.LinkIdentityWithIDToken. exec. rewrite Hu, Hb. simpl.
    rewrite Hv. simpl. rewrite Hp. simpl. rewrite Ht. f_equal. same_world.
  - unfold ApiAlt.LinkIdentityWithIDToken. exec. rewrite Hb. simpl.
    rewrite Hv. simpl. rewrite Hu. simpl. rewrite Hp. simpl. rewrite Ht.
    f_equal. same_world.
Qed.

Lemma verifier_error_wrapped_witness :
  Api.LinkIdentityWithIDToken env_bad_token world_ok
  = (inl (OAuthError "invalid_request" "Bad ID token"
                     (Some (OtherError "token is expired"))),
     logged world_ok (calls_before_policy (link_body "") google)).
Proof.
  exact (proj1 (verifier_error_wrapped env_bad_token world_ok alice
                  (link_body "") google _
                  eq_refl eq_refl eq_refl eq_refl eq_refl)).
Defined.

(** ** The audience loops *)

Lemma correctAudience_blank (acceptable auds : list string) :
  (forall c, c ∈ acceptable -> c = "") ->
  correctAudience acceptable auds = false.
Proof.
  intros Hblank. destruct (correctAudience acceptable auds) eqn:E; [| trivial].
  apply correctAudience_spec in E.
  destruct E as (c & a & Hin & Hne & _). elim Hne. now apply Hblank.
Qed.

Lemma correctAudience_no_audience (acceptable : list string) :
  correctAudience acceptable [] = false.
Proof.
  destruct (correctAudience acceptable []) eqn:E; [| trivial].
  apply correctAudience_spec in E.
  destruct E as (c & a & _ & _ & Ha & _). inversion Ha.
Qed.

(** X3. A provider whose acceptable client ids are all blank (or that
    has none) accepts no token, not even one whose audience holds the
    empty string, and a token with an empty audience is accepted for no
    provider: both versions fail with the unacceptable-audience error
    and change nothing. *)
Theorem blank_clients_reject (env : Env) (s : World) (user : User) (b : Body)
        (rp : Resolved) (idToken : IDToken) (userData : UserProvidedData) :
  verified env s user b rp idToken userData ->
  (forall c, c ∈ acceptableClientIDs rp -> c = "") \/ Audience idToken = [] ->
  Api.LinkIdentityWithIDToken env s
  = (inl (oauthError "invalid_request" "Unacceptable audience in id_token"),
     logged s (calls_before_policy b rp)) /\
  ApiAlt.LinkIdentityWithIDToken env s
  = (inl (oauthError "invalid_request" "Unacceptable audience in id_token"),
     logged s (calls_before_policy_alt b rp)).
Proof.
  intros Hv H.
  assert (Hno : correctAudience (acceptableClientIDs rp) (Audience idToken)
                = false).
  { destruct H as [H | H].
    - now apply correctAudience_blank.
    - rewrite H. apply correctAudience_no_audience. }
  split.
  - eapply stage_audience; eassumption.
  - eapply stage_audience_alt; eassumption.
Qed.

Lemma blank_clients_reject_witness :
  Api.LinkIdentityWithIDToken env_blank_clients world_ok
  = (inl (oauthError "invalid_request" "Unacceptable audience in id_token"),
     logged world_ok
       (calls_before_policy (link_body "")
          (mkResolved "google-oidc" false "google" [""; ""]))).
Proof.
  assert (Hv : verified env_blank_clients world_ok alice (link_body "")
                 (mkResolved "google-oidc" false "google" [""; ""])
                 (mkIDToken [""; "clientA"] "xyz") (mkUserData google_claims))
    by (repeat split; reflexivity).
  refine (proj1 (blank_clients_reject _ _ _ _ _ _ _ Hv _)).
  left. intros c Hc. simpl in Hc.
  apply elem_of_cons in Hc. destruct Hc as [-> | Hc]; [reflexivity |].
  apply elem_of_cons in Hc. destruct Hc as [-> | Hc]; [reflexivity |].
  inversion Hc.
Defined.



(** ** The storage is reached only after every check *)

(** X5. In every run of either version, a call that reaches the storage
    (the transaction, the lookup, the creation, the updates, the audit
    record) is made only for an authenticated user whose request
    decoded and validated, whose provider resolved, whose token
    verified, and whose audience and nonce checks passed. *)
Theorem storage_only_after_checks (env : Env) (s : World) :
  let guarded l :=
    (exists c, In c l /\ storage_call c = true) ->
    exists user b rp idToken userData,
      verified env s user b rp idToken userData /\
      correctAudience (acceptableClientIDs rp) (Audience idToken) = true /\
      nonce_passes rp b idToken = true in
  (exists l, calls (snd (Api.LinkIdentityWithIDToken env s)) = calls s ++ l /\
             guarded l) /\
  (exists l,
     calls (snd (ApiAlt.LinkIdentityWithIDToken env s)) = calls s ++ l /\
     guarded l).
Proof.
  intros guarded. subst guarded. split.
  - unfold Api.LinkIdentityWithIDToken, Api.link_tx. exec_all.
    paths; (eexists; split; [same_trace |]);
      first [ no_storage_call | intros _; simpl in *; checks_hold ].
  - unfold ApiAlt.LinkIdentityWithIDToken, ApiAlt.link_tx. exec_all.
    paths; (eexists; split; [same_trace |]);
      first [ no_storage_call | intros _; simpl in *; checks_hold ].
Qed.

Lemma storage_only_after_checks_witness :
  exists l,
    calls (snd (Api.LinkIdentityWithIDToken env_ok world_ok))
    = calls world_ok ++ l /\
    exists rp idToken,
      correctAudience (acceptableClientIDs rp) (Audience idToken) = true.
Proof.
  destruct (storage_only_after_checks env_ok world_ok)
    as ((l & Hl & Hguard) & _).
  exists l. split; [exact Hl |].
  destruct Hguard as (user & b & rp & idToken & userData & _ & Haud & _).
  - exists CallBegin. split; [| reflexivity].
    assert (Hcalls : calls (snd (Api.LinkIdentityWithIDToken env_ok world_ok))
                     = calls world_ok
                       ++ firstn 5 (calls (snd (Api.LinkIdentityWithIDToken
                                                   env_ok world_ok)))
                       ++ skipn 5 (calls (snd (Api.LinkIdentityWithIDToken
                                                  env_ok world_ok))))
      by (vm_compute; reflexivity).
    rewrite Hcalls in Hl. apply app_inv_head in Hl. subst l.
    apply in_app_iff. left. vm_compute. auto 10.
  - exists rp, idToken. exact Haud.
Defined.

(** ** Failures and the storage *)

(** X6. Whenever either version of the handler returns an error, the
    storage is as it was before the request and no response has been
    written, unless the error is that of the response writer, which
    comes after the commit. *)
Theorem failure_leaves_storage (env : Env) (s : World) :
  let unchanged_or_sent (r : (error + unit) * World) :=
    forall e, fst r = inl e ->
      (conn (snd r) = conn s /\ writer (snd r) = writer s) \/
      (fault_send (faults env) = Some e /\
       exists l, calls (snd r) = calls s ++ l /\ In CallCommit l) in
  unchanged_or_sent (Api.LinkIdentityWithIDToken env s) /\
  unchanged_or_sent (ApiAlt.LinkIdentityWithIDToken env s).
Proof.
  intros unchanged_or_sent. subst unchanged_or_sent. split.
  - unfold Api.LinkIdentityWithIDToken, Api.link_tx. exec_all.
    paths; intros e' He'; simpl in *; simplify_eq;
      first [ left; split; reflexivity
            | right; split; [reflexivity |];
              eexists; split; [same_trace | simpl; auto 20] ].
  - unfold ApiAlt.LinkIdentityWithIDToken, ApiAlt.link_tx. exec_all.
    paths; intros e' He'; simpl in *; simplify_eq;
      first [ left; split; reflexivity
            | right; split; [reflexivity |];
              eexists; split; [same_trace | simpl; auto 20] ].
Qed.

Lemma failure_leaves_storage_witness :
  conn (snd (Api.LinkIdentityWithIDToken env_lookup_fails world_ok))
  = conn world_ok.
Proof.
  destruct (failure_leaves_storage env_lookup_fails world_ok) as (H & _).
  destruct (H (HTTPError 500 None "Database error finding identity"
                         (Some (OtherError "connection reset")))
              ltac:(vm_compute; reflexivity)) as [(Hc & _) | (Hf & _)].
  - exact Hc.
  - discriminate Hf.
Defined.

(** X7. The response is written after the transaction has committed:
    when the response writer fails on a request that would otherwise
    link, the handler returns the writer's error although the identity,
    the user's metadata and provider list and the audit record are
    stored, exactly as for the successful request. *)
Theorem response_failure_after_commit (env : Env) (s s' : World) (e : error) :
  Api.LinkIdentityWithIDToken env s = (inr tt, s') ->
  exists s'',
    Api.LinkIdentityWithIDToken (inject_send_failure e env) s = (inl e, s'') /\
    conn s'' = conn s' /\
    ctx_user s'' = ctx_user s' /\
    writer s'' = writer s.
Proof.
  unfold Api.LinkIdentityWithIDToken, Api.link_tx, inject_send_failure,
    with_faults.
  exec_all. unfold lookup_outcome. simpl.
  paths; intros H; simpl in *; simplify_eq.
  all: eexists; split; [reflexivity |]; simpl; auto.
Qed.

Lemma response_failure_after_commit_witness :
  exists s'',
    Api.LinkIdentityWithIDToken
      (inject_send_failure (OtherError "broken pipe") env_ok) world_ok
    = (inl (OtherError "broken pipe"), s'') /\
    length (identities (conn s'')) = 1%nat.
Proof.
  destruct (response_failure_after_commit env_ok world_ok
              (snd (Api.LinkIdentityWithIDToken env_ok world_ok))
              (OtherError "broken pipe") ltac:(vm_compute; reflexivity))
    as (s'' & Hrun & Hconn & _).
  exists s''. split; [exact Hrun |]. rewrite Hconn. vm_compute. reflexivity.
Defined.

(** ** Failures of the steps of the link *)

Lemma create_failure env s s' e :
  Api.LinkIdentityWithIDToken env s = (inr tt, s') ->
  exists s'',
    Api.LinkIdentityWithIDToken (inject_create_failure e env) s
    = (inl (HTTPError 500 None "Error creating identity" (Some e)), s'') /\
    conn s'' = conn s /\ writer s'' = writer s.
Proof.
  unfold Api.LinkIdentityWithIDToken, Api.link_tx, inject_create_failure,
    with_faults.
  failed_step.
Qed.

Lemma metadata_failure env s s' e :
  Api.LinkIdentityWithIDToken env s = (inr tt, s') ->
  exists s'',
    Api.LinkIdentityWithIDToken (inject_metadata_failure e env) s
    = (inl (HTTPError 500 None "Error updating user metadata" (Some e)), s'') /\
    conn s'' = conn s /\ writer s'' = writer s.
Proof.
  unfold Api.LinkIdentityWithIDToken, Api.link_tx, inject_metadata_failure,
    with_faults.
  failed_step.
Qed.

Lemma providers_failure env s s' e :
  Api.LinkIdentityWithIDToken env s = (inr tt, s') ->
  exists s'',
    Api.LinkIdentityWithIDToken (inject_providers_failure e env) s
    = (inl (HTTPError 500 None "Error updating user providers" (Some e)), s'')
    /\ conn s'' = conn s /\ writer s'' = writer s.
Proof.
  unfold Api.LinkIdentityWithIDToken, Api.link_tx, inject_providers_failure,
    with_faults.
  failed_step.
Qed.

Lemma new_identity_failure env s s' e :
  Api.LinkIdentityWithIDToken env s = (inr tt, s') ->
  exists s'',
    Api.LinkIdentityWithIDToken (inject_new_identity_failure e env) s
    = (inl e, s'') /\
    conn s'' = conn s /\ writer s'' = writer s.
Proof.
  unfold Api.LinkIdentityWithIDToken, Api.link_tx,
    inject_new_identity_failure.
  failed_step.
Qed.

(** X8. Take a request that links successfully and make one step of the
    link fail with [e].  A failure of [tx.Create], of
    [UpdateUserMetaData] or of [UpdateAppMetaDataProviders] is returned
    as a 500 error with the step's own message and [e] as its internal
    cause; a failure of [models.NewIdentity] is returned as [e] itself.
    In each case the storage is unchanged and no response is written. *)
Theorem step_failures (env : Env) (s s' : World) (e : error) :
  Api.LinkIdentityWithIDToken env s = (inr tt, s') ->
  let fails_with env' err :=
    exists s'',
      Api.LinkIdentityWithIDToken env' s = (inl err, s'') /\
      conn s'' = conn s /\ writer s'' = writer s in
  fails_with (inject_new_identity_failure e env) e /\
  fails_with (inject_create_failure e env)
             (WithInternalError
                (internalServerError "Error creating identity") e) /\
  fails_with (inject_metadata_failure e env)
             (WithInternalError
                (internalServerError "Error updating user metadata") e) /\
  fails_with (inject_providers_failure e env)
             (WithInternalError
                (internalServerError "Error updating user providers") e).
Proof.
  intros Hrun fails_with. subst fails_with. split_and!.
  - eapply new_identity_failure; eassumption.
  - eapply create_failure; eassumption.
  - eapply metadata_failure; eassumption.
  - eapply providers_failure; eassumption.
Qed.

Lemma step_failures_witness :
  exists s'',
    Api.LinkIdentityWithIDToken
      (inject_create_failure (OtherError "disk full") env_ok) world_ok
    = (inl (HTTPError 500 None "Error creating identity"
                      (Some (OtherError "disk full"))), s'') /\
    conn s'' = conn world_ok.
Proof.
  destruct (step_failures env_ok world_ok
              (snd (Api.LinkIdentityWithIDToken env_ok world_ok))
              (OtherError "disk full") ltac:(vm_compute; reflexivity))
    as (_ & (s'' & Hrun & Hconn & _) & _).
  exists s''. split; [exact Hrun | exact Hconn].
Defined.

(** ** The order of the calls of a successful link *)

(** X9. A successful link makes each call once, in this order: the
    user, the body, the provider resolver, the token verifier; then, in
    one transaction, the lookup, the construction and the creation of
    the identity, the merge of the metadata, the update of the provider
    list and the audit record; then the commit, and last the 200
    response with the user object as the transaction left it. *)
Theorem success_call_order (env : Env) (s s' : World) :
  Api.LinkIdentityWithIDToken env s = (inr tt, s') ->
  exists user b rp idToken userData sub u',
    verified env s user b rp idToken userData /\
    provider_id_of env (structs_Map (Metadata userData)) = inr sub /\
    ctx_user s' = Some u' /\
    let data := structs_Map (Metadata userData) in
    calls s'
    = calls s
      ++ [CallGetUser; CallRetrieveRequestParams; resolver_call b;
          verifier_call b rp; CallBegin;
          CallFindIdentityByIdAndProvider (Subject (Metadata userData))
                                          (providerType rp);
          CallNewIdentity (ID user) (providerType rp) data;
          CallCreate (mkIdentity "" (ID user) (providerType rp) sub data);
          CallUpdateUserMetaData data;
          CallUpdateAppMetaDataProviders;
          CallNewAuditLogEntry (ID user) UserModifiedAction ""
                               {[ "provider" := providerType rp ]};
          CallCommit;
          CallSendJSON StatusOK u'].
Proof.
  unfold Api.LinkIdentityWithIDToken, Api.link_tx. exec_all.
  paths; intros H; simpl in *; simplify_eq.
  all: do 7 eexists.
  all: unfold verified, decodeIdTokenGrantParams.
  all: simpl; split_and!; try eassumption; try reflexivity.
  all: same_trace.
Qed.

Lemma success_call_order_witness :
  exists l,
    calls (snd (Api.LinkIdentityWithIDToken env_ok world_ok))
    = calls world_ok ++ l /\ length l = 13%nat.
Proof.
  destruct (success_call_order env_ok world_ok
              (snd (Api.LinkIdentityWithIDToken env_ok world_ok))
              ltac:(vm_compute; reflexivity))
    as (user & b & rp & idToken & userData & sub & u' & _ & _ & _ & Hcalls).
  eexists. split; [exact Hcalls | reflexivity].
Defined.

(** * Properties of the migration command *)

Module CmdFacts.
Import Cmd CmdProps.

(** ** Substrings *)

Lemma prefix_nil (s : string) : String.prefix EmptyString s = true.
Proof. now destruct s. Qed.

Lemma prefix_app (sub a b : string) :
  String.prefix sub a = true -> String.prefix sub (a +:+ b) = true.
Proof.
  revert a. induction sub as [|d sub IH]; intros a H; [apply prefix_nil |].
  destruct a as [|x a]; simpl in *; [discriminate |].
  destruct (Ascii.ascii_dec d x); [now apply IH | discriminate].
Qed.

Lemma Contains_cons (x : Ascii.ascii) (s sub : string) :
  Contains (String x s) sub
  = String.prefix sub (String x s) || Contains s sub.
Proof. reflexivity. Qed.

Lemma append_cons (x : Ascii.ascii) (a b : string) :
  String x a +:+ b = String x (a +:+ b).
Proof. reflexivity. Qed.

Lemma Contains_app_l (a b sub : string) :
  Contains a sub = true -> Contains (a +:+ b) sub = true.
Proof.
  induction a as [|x a IH].
  - destruct sub; [intros _; destruct b; reflexivity | discriminate].
  - rewrite append_cons, !Contains_cons, <- append_cons.
    intros H. apply orb_true_iff in H. apply orb_true_iff.
    destruct H as [H | H]; [left; now apply prefix_app | right; auto].
Qed.

Lemma Contains_app_r (a b sub : string) :
  Contains b sub = true -> Contains (a +:+ b) sub = true.
Proof.
  intros H. induction a as [|x a IH]; [assumption |].
  rewrite append_cons, Contains_cons, IH. apply orb_true_r.
Qed.

(** A separator that does not occur in [sub] keeps [sub] from spanning
    the two sides. *)
Lemma prefix_app_sep (sub a b : string) (c : Ascii.ascii) :
  has_char c sub = false ->
  String.prefix sub (a +:+ String c b) = String.prefix sub a.
Proof.
  revert a. induction sub as [|d sub IH]; intros a H;
    [now rewrite !prefix_nil |].
  simpl in H. destruct (Ascii.eqb c d) eqn:E; [discriminate |].
  destruct a as [|x a]; simpl.
  - destruct (Ascii.ascii_dec d c) as [-> |]; [| reflexivity].
    now rewrite Ascii.eqb_refl in E.
  - destruct (Ascii.ascii_dec d x); [now apply IH | reflexivity].
Qed.

Lemma Contains_app_sep (a b sub : string) (c : Ascii.ascii) :
  has_char c sub = false ->
  Contains (String c b) sub = false ->
  Contains (a +:+ String c b) sub = Contains a sub.
Proof.
  intros Hc Hb. induction a as [|x a IH].
  - change (EmptyString +:+ String c b) with (String c b). rewrite Hb.
    destruct sub; [| reflexivity].
    rewrite Contains_cons, prefix_nil in Hb. discriminate.
  - rewrite append_cons, !Contains_cons, <- append_cons.
    rewrite prefix_app_sep by assumption. now rewrite IH.
Qed.

(** ** The URL given to the database driver *)

(** X10. The URL that [migrate] builds is the configured URL with the
    application name appended ("&" when the URL has query parameters,
    "?" otherwise), followed by [search_path=<namespace>] exactly when a
    namespace is configured and the text [search_path] does not already
    occur anywhere in the configured URL; so with a namespace the
    resulting URL always mentions [search_path]. *)
Theorem processed_url (dbURL ns : string) (nquery : nat) :
  let named := with_application_name dbURL nquery in
  let processed := with_search_path named ns in
  processed
  = (if (ns == "") || Contains dbURL "search_path" then named
     else named
          +:+ (if Nat.eqb nquery 0 || Contains dbURL "?" then "&" else "?")
          +:+ "search_path=" +:+ ns) /\
  (ns == "") || Contains processed "search_path" = true.
Proof.
  intros named processed. subst processed named.
  assert (Hsp : Contains (with_application_name dbURL nquery) "search_path"
                = Contains dbURL "search_path").
  { unfold with_application_name. destruct (Nat.eqb nquery 0); simpl negb;
      cbv iota; apply Contains_app_sep; reflexivity. }
  assert (Hq : Contains (with_application_name dbURL nquery) "?"
               = Nat.eqb nquery 0 || Contains dbURL "?").
  { unfold with_application_name. destruct (Nat.eqb nquery 0); simpl negb;
      cbv iota.
    - apply Contains_app_r. reflexivity.
    - apply Contains_app_sep; reflexivity. }
  unfold with_search_path. rewrite Hsp, Hq.
  destruct (ns == "") eqn:Ens; simpl; [split; reflexivity |].
  destruct (Contains dbURL "search_path") eqn:Esp; simpl.
  - split; [reflexivity |]. now rewrite Hsp.
  - destruct (Nat.eqb nquery 0 || Contains dbURL "?"); simpl.
    + split; [reflexivity |]. apply Contains_app_r. reflexivity.
    + split; [reflexivity |]. apply Contains_app_r. reflexivity.
Qed.

(** ** Masking the password *)

(** X11. The masked URL does not depend on the password: two database
    URLs whose parsed forms differ at most in the password of the user
    information (its value, or whether there is one) are masked to the
    same text.  In particular a URL with a user name and no password is
    shown with the mask as well. *)
Theorem maskPassword_hides_password (sys : Sys) (dbURL1 dbURL2 : string)
        (u1 u2 : URL) :
  url_Parse sys dbURL1 = inr u1 ->
  url_Parse sys dbURL2 = inr u2 ->
  same_but_password u1 u2 ->
  maskPassword sys dbURL1 = maskPassword sys dbURL2.
Proof.
  intros H1 H2 (Hs & Hh & Hp & Hq & Hf & Hu).
  unfold maskPassword. rewrite H1, H2. f_equal.
  destruct u1 as [s1 [i1|] h1 p1 q1 f1], u2 as [s2 [i2|] h2 p2 q2 f2];
    simpl in *; simplify_eq; unfold set_User; simpl; congruence.
Qed.

Lemma maskPassword_hides_password_witness :
  maskPassword (demo_sys demo_config)
               "postgres://auth_admin:hunter2@db:5432/postgres"
  = maskPassword (demo_sys demo_config)
                 "postgres://auth_admin@db:5432/postgres".
Proof.
  apply (maskPassword_hides_password (demo_sys demo_config) _ _
           demo_url
           (set_User demo_url (Some (mkUserinfo "auth_admin" "" false))));
    [reflexivity | reflexivity | repeat split].
Defined.

End CmdFacts.

Module MigrateFacts.
Import Cmd CmdProps.

(** ** The two parts of [migrate] *)

Lemma migrate_unfold (sys : Sys) (p : Proc) :
  migrate sys p
  = match prepare sys p with
    | (inl st, p1) => (inl st, p1)
    | (inr deets, p1) =>
        let p2 := add_event p1 (NewConnection deets) in
        match NewConnection_err sys with
        | Some e => (inl Exit, add_event p2 (Fatalf "opening db connection" e))
        | None =>
            match run_migrations sys p2 with
            | (inl Exit, p3) => (inl Exit, p3)
            | (inl Panic, p3) => (inl Panic, add_event p3 Close)
            | (inr _, p3) => (inr tt, add_event p3 Close)
            end
        end
    end.
Proof.
  unfold migrate. autounfold with cmd_ops. unfold add_event.
  destruct (prepare sys p) as [[st | deets] p1]; [reflexivity |].
  simpl. destruct (NewConnection_err sys); [reflexivity |].
  destruct (run_migrations sys _) as [[[|] | []] p3]; reflexivity.
Qed.

(** What the first part does: no call to [pop] or the database; on
    return the URL has parsed, the details are those for it, [pop.Debug]
    is on and the logger has the configured level. *)
Lemma prepare_spec (sys : Sys) (p : Proc) :
  let cfg := globalConfig sys in
  exists l,
    events (snd (prepare sys p)) = events p ++ l /\
    Forall (fun e => is_db_event e = false) l /\
    match fst (prepare sys p) with
    | inr d =>
        exists u,
          url_Parse sys (DB_URL cfg) = inr u /\
          d = details_for sys u /\
          pop_Debug (snd (prepare sys p)) = true /\
          log_Level (snd (prepare sys p)) = level_after_setup sys p /\
          (In SetLogger_noop l <->
           Logging_Level cfg <> "" /\
           is_DebugLevel (level_after_setup sys p) = false)
    | inl Exit =>
        exists msg c,
          last l = Some (Fatalf msg c) /\
          ((msg = "parsing db connection url" /\
            url_Parse sys (DB_URL cfg) = inl c /\
            DB_Driver cfg = "" /\ DB_URL cfg <> "") \/
           (msg = "Failed to parse log level" /\
            ParseLevel sys (Logging_Level cfg) = inl c /\
            Logging_Level cfg <> ""))
    | inl Panic =>
        (exists err, url_Parse sys (DB_URL cfg) = inl err) /\
        (DB_Driver cfg <> "" \/ DB_URL cfg = "") /\
        In (Infof ("Database URL: " +:+ "[unparseable-url]")) l
    end.
Proof.
  intros cfg. subst cfg. cmd_exec.
  paths; (eexists; split; [same_events |]);
    (split; [repeat constructor |]); simpl.
  all: unfold level_after_setup, details_for, driver_of, maskPassword.
  all: repeat match goal with
         | H : _ = _ |- _ => rewrite H
         end; simpl.
  all: boolp.
  all: try solve [ do 2 eexists; split; [reflexivity |];
                   first [ left; split_and!; congruence
                         | right; split_and!; congruence ] ].
  all: try solve [ eexists; split_and!; try reflexivity;
                   intuition (try discriminate; try congruence; auto 10) ].
  all: repeat match goal with
         | H : _ \/ _ |- _ => destruct H
         end; boolp.
  all: split_and!; eauto 10.
Qed.

(** What the second part does, started at [p]: it never panics and
    leaves [pop.Debug] and the logger's level alone; its calls are as
    [migration_event_ok] says; it stops only after a fatal log line; on
    return it has opened the connection, made the migrator, run
    [UpTo(0)], and printed the status twice at debug level and not at
    all otherwise. *)
Lemma run_migrations_spec (sys : Sys) (p : Proc) :
  exists l,
    events (snd (run_migrations sys p)) = events p ++ l /\
    pop_Debug (snd (run_migrations sys p)) = pop_Debug p /\
    log_Level (snd (run_migrations sys p)) = log_Level p /\
    Forall (migration_event_ok sys p) l /\
    match fst (run_migrations sys p) with
    | inl Panic => False
    | inl Exit => exists msg c, last l = Some (Fatalf msg c)
    | inr _ =>
        In Open l /\ In NewMigrationBox l /\ In (UpTo 0) l /\
        length (List.filter is_Status l)
        = (if is_DebugLevel (log_Level p) then 2 else 0)%nat
    end.
Proof.
  cmd_exec.
  paths; simpl in *; try congruence;
    (eexists; split; [same_events |]); simpl.
  all: split; [reflexivity |]; split; [reflexivity |].
  all: boolp.
  all: split;
    [ repeat first [ apply List.Forall_nil
                   | apply List.Forall_cons; [simpl; auto 10 |] ] |].
  all: try solve [ do 2 eexists; reflexivity ].
  all: split_and!; auto 20.
Qed.

(** ** Runs that differ in their warnings *)

Lemma same_but_warnings_refl (p : Proc) : same_but_warnings p p.
Proof. repeat split. Qed.

Lemma alike_done {A} (a : A) : alike (done a) (done a).
Proof. intros p p' H. split; [reflexivity | exact H]. Qed.

Lemma alike_emit (e : Event) : alike (emit e) (emit e).
Proof.
  intros p p' (HD & HL & HE). split; [reflexivity |].
  repeat split; simpl; try assumption.
  rewrite !List.filter_app. now rewrite HE.
Qed.

Lemma alike_fatal {A} (msg : string) (c : error) :
  alike (@fatal A msg c) (@fatal A msg c).
Proof.
  intros p p' (HD & HL & HE). split; [reflexivity |].
  repeat split; simpl; try assumption.
  rewrite !List.filter_app. now rewrite HE.
Qed.

Lemma alike_and_then {A B} (m m' : Run A) (k k' : A -> Run B) :
  alike m m' -> (forall a, alike (k a) (k' a)) ->
  alike (and_then m k) (and_then m' k').
Proof.
  intros Hm Hk p p' H. unfold and_then.
  destruct (Hm p p' H) as [Hf Hs].
  destruct (m p) as [[st | a] q], (m' p') as [[st' | a'] q'];
    simpl in Hf, Hs; try discriminate.
  - injection Hf as ->. simpl. split; [reflexivity | assumption].
  - injection Hf as <-. now apply Hk.
Qed.

Lemma alike_or_fatal (ev : Event) (err : option error) (msg : string) :
  alike (or_fatal ev err msg) (or_fatal ev err msg).
Proof.
  unfold or_fatal. apply alike_and_then; [apply alike_emit |].
  intros _. destruct err; [apply alike_fatal | apply alike_done].
Qed.

(** A warning more or less makes no difference. *)
Lemma alike_exec_or_warn (sql : string) (e e' : option error)
      (msg : string) :
  alike (exec_or_warn sql e msg) (exec_or_warn sql e' msg).
Proof.
  intros p p' (HD & HL & HE). unfold exec_or_warn, and_then, emit, done.
  destruct e, e'; simpl; (split; [reflexivity |]).
  all: repeat split; simpl; try assumption.
  all: rewrite !List.filter_app; simpl; rewrite ?app_nil_r; now rewrite HE.
Qed.

Lemma alike_status_if_debug (err : option error) :
  alike (status_if_debug err) (status_if_debug err).
Proof.
  intros p p' H. pose proof H as (HD & HL & HE).
  unfold status_if_debug, and_then, get_Level. rewrite <- HL.
  destruct (is_DebugLevel (log_Level p));
    [now apply alike_or_fatal | now apply alike_done].
Qed.

(** The second part with the two schema statements failing or not. *)
Lemma run_migrations_schema_errors (sys : Sys) (e1 e2 : option error) :
  alike (run_migrations (with_schema_errors e1 e2 sys)) (run_migrations sys).
Proof.
  unfold run_migrations. simpl.
  repeat first
    [ apply alike_or_fatal
    | apply alike_exec_or_warn
    | apply alike_status_if_debug
    | apply alike_and_then; [| intros _]
    | apply alike_emit
    | apply alike_fatal
    | apply alike_done
    | match goal with
      | |- alike (if ?b then _ else _) _ => destruct b
      | |- alike (match ?x with inl _ => _ | inr _ => _ end) _ => destruct x
      end ].
Qed.

(** The runs of [migrate]: it stops before it connects, or the
    connection is refused, or the second part runs with it. *)
Lemma migrate_cases (sys : Sys) (p : Proc) :
  let cfg := globalConfig sys in
  let r := migrate sys p in
  exists l1,
    Forall (fun e => is_db_event e = false) l1 /\
    ((exists st,
        fst r = inl st /\ events (snd r) = events p ++ l1 /\
        match st with
        | Exit =>
            exists msg c,
              last l1 = Some (Fatalf msg c) /\
              ((msg = "parsing db connection url" /\
                url_Parse sys (DB_URL cfg) = inl c /\
                DB_Driver cfg = "" /\ DB_URL cfg <> "") \/
               (msg = "Failed to parse log level" /\
                ParseLevel sys (Logging_Level cfg) = inl c /\
                Logging_Level cfg <> ""))
        | Panic =>
            (exists err, url_Parse sys (DB_URL cfg) = inl err) /\
            (DB_Driver cfg <> "" \/ DB_URL cfg = "") /\
            In (Infof ("Database URL: " +:+ "[unparseable-url]")) l1
        end) \/
     (exists u p2 l3,
        url_Parse sys (DB_URL cfg) = inr u /\
        pop_Debug (snd r) = true /\
        log_Level (snd r) = level_after_setup sys p /\
        log_Level p2 = level_after_setup sys p /\
        (In SetLogger_noop l1 <->
         Logging_Level cfg <> "" /\
         is_DebugLevel (level_after_setup sys p) = false) /\
        events (snd r)
        = events p ++ l1 ++ NewConnection (details_for sys u) :: l3 /\
        ((exists e,
            NewConnection_err sys = Some e /\ fst r = inl Exit /\
            l3 = [Fatalf "opening db connection" e]) \/
         (NewConnection_err sys = None /\ fst r = inl Exit /\
          Forall (migration_event_ok sys p2) l3 /\
          exists msg c, last l3 = Some (Fatalf msg c)) \/
         (NewConnection_err sys = None /\ fst r = inr tt /\
          exists l4,
            l3 = l4 ++ [Close] /\
            Forall (migration_event_ok sys p2) l4 /\
            In Open l4 /\ In NewMigrationBox l4 /\ In (UpTo 0) l4 /\
            length (List.filter is_Status l4)
            = (if is_DebugLevel (level_after_setup sys p) then 2
               else 0)%nat)))).
Proof.
  intros cfg r. subst cfg r. rewrite migrate_unfold. cbv zeta.
  destruct (prepare_spec sys p) as (l1 & E1 & F1 & C1).
  exists l1. split; [assumption |].
  destruct (prepare sys p) as [[st | d] p1]; simpl in E1, C1.
  { left. exists st. simpl. split_and!; [reflexivity | assumption |].
    destruct st; assumption. }
  right. destruct C1 as (u & Hu & -> & HD & HL & HN).
  set (p2 := add_event p1 (NewConnection (details_for sys u))).
  exists u, p2.
  destruct (NewConnection_err sys) as [e |] eqn:EN.
  { exists [Fatalf "opening db connection" e]. simpl.
    split_and!; try assumption; try reflexivity.
    - rewrite E1. same_events.
    - left. eauto. }
  destruct (run_migrations_spec sys p2) as (l3 & E3 & D3 & L3 & F3 & C3).
  simpl in E3, D3, L3. rewrite E1 in E3. rewrite HL in L3. rewrite HD in D3.
  destruct (run_migrations sys p2) as [[[|] | []] p3];
    simpl in E3, D3, L3, C3 |- *.
  - exists l3. split_and!; try assumption; try reflexivity.
    + simpl. rewrite E3. same_events.
    + right. left. auto.
  - destruct C3.
  - exists (l3 ++ [Close]). split_and!; try assumption; try reflexivity.
    + simpl. rewrite E3. same_events.
    + right. right. split_and!; try reflexivity.
      exists l3. change (log_Level p2) with (log_Level p1) in C3.
      rewrite HL in C3. tauto.
Qed.

Lemma no_db_event_In (l : list Event) (e : Event) :
  Forall (fun e => is_db_event e = false) l -> In e l ->
  is_db_event e = false.
Proof. intros F H. rewrite List.Forall_forall in F. now apply F. Qed.

Lemma no_db_event_Status (l : list Event) :
  Forall (fun e => is_db_event e = false) l -> List.filter is_Status l = [].
Proof.
  induction 1 as [| e l He _ IH]; [reflexivity |].
  simpl. rewrite IH. now destruct e.
Qed.

Lemma migration_event_In (sys : Sys) (p : Proc) (l : list Event) (e : Event) :
  Forall (migration_event_ok sys p) l -> In e l -> migration_event_ok sys p e.
Proof. intros F H. rewrite List.Forall_forall in F. now apply F. Qed.

(** ** The whole command *)


(** X13. An error of either schema statement ([CREATE SCHEMA], [SET
    search_path]) is never fatal: whatever errors the two statements
    return, [migrate] ends the same way, with the same [pop.Debug] and
    logger level, and makes the same calls in the same order, but for
    the warnings logged. *)
Theorem schema_errors_not_fatal (sys : Sys) (p : Proc)
        (e1 e2 : option error) :
  let r := migrate sys p in
  let r' := migrate (with_schema_errors e1 e2 sys) p in
  fst r' = fst r /\
  pop_Debug (snd r') = pop_Debug (snd r) /\
  log_Level (snd r') = log_Level (snd r) /\
  List.filter not_warning (events (snd r'))
  = List.filter not_warning (events (snd r)).
Proof.
  intros r r'. subst r r'. rewrite !migrate_unfold. cbv zeta.
  change (prepare (with_schema_errors e1 e2 sys) p) with (prepare sys p).
  change (NewConnection_err (with_schema_errors e1 e2 sys))
    with (NewConnection_err sys).
  destruct (prepare sys p) as [[st | d] p1]; [repeat split |].
  destruct (NewConnection_err sys); [repeat split |].
  destruct (run_migrations_schema_errors sys e1 e2
              (add_event p1 (NewConnection d))
              (add_event p1 (NewConnection d))
              (same_but_warnings_refl _)) as (Hf & HD & HL & HE).
  destruct (run_migrations (with_schema_errors e1 e2 sys) _)
    as [[[|] | []] q'],
    (run_migrations sys _) as [[[|] | []] q];
    simpl in Hf, HD, HL, HE; try discriminate; simpl.
  all: repeat split; try assumption.
  all: rewrite !List.filter_app; now rewrite HE.
Qed.

(** X14. The migration status is printed only when the logger ends up
    at debug level (the configured level, or the level it had when none
    is configured): any other level skips both status calls, and a run
    at debug level that returns has printed it exactly twice. *)
Theorem status_only_at_debug (sys : Sys) (p : Proc) :
  exists l,
    events (snd (migrate sys p)) = events p ++ l /\
    (In Status l -> is_DebugLevel (level_after_setup sys p) = true) /\
    (forall u, fst (migrate sys p) = inr u ->
       length (List.filter is_Status l)
       = (if is_DebugLevel (level_after_setup sys p) then 2 else 0)%nat).
Proof.
  destruct (migrate_cases sys p)
    as (l1 & F1 & [(st & Hf & He & Hst)
                  | (u & p2 & l3 & Hu & HD & HL & HL2 & HN & He & Hc)]).
  - exists l1. split; [assumption |]. split.
    + intros HS. apply (no_db_event_In _ _ F1) in HS. discriminate.
    + intros v Hv. rewrite Hf in Hv. discriminate.
  - exists (l1 ++ NewConnection (details_for sys u) :: l3).
    split; [assumption |].
    destruct Hc as [(e & _ & Hf & ->)
                   | [(_ & Hf & F3 & _)
                     | (_ & Hf & l4 & -> & F4 & _ & _ & _ & HS)]];
      rewrite Hf; (split; [| intros v Hv; try discriminate]).
    + rewrite in_app_iff. simpl. intros [HC | [HC | [HC | []]]];
        try discriminate.
      apply (no_db_event_In _ _ F1) in HC. discriminate.
    + rewrite in_app_iff. simpl. intros [HC | [HC | HC]]; try discriminate.
      * apply (no_db_event_In _ _ F1) in HC. discriminate.
      * apply (migration_event_In _ _ _ _ F3) in HC. simpl in HC.
        now rewrite <- HL2.
    + rewrite in_app_iff. simpl. rewrite in_app_iff. simpl.
      intros [HC | [HC | [HC | [HC | []]]]]; try discriminate.
      * apply (no_db_event_In _ _ F1) in HC. discriminate.
      * apply (migration_event_In _ _ _ _ F4) in HC. simpl in HC.
        now rewrite <- HL2.
    + rewrite List.filter_app, (no_db_event_Status _ F1). simpl.
      rewrite List.filter_app, length_app, HS. simpl. lia.
Qed.

(** X15. Whenever [migrate] asks for a connection, [pop.Debug] is on,
    whatever log level is configured, and the logger has the level that
    was configured (or kept its own when none was).  The logger of [pop]
    has been silenced exactly when a level is configured and it is not
    the debug level; with no level configured it is left as it was. *)
Theorem pop_debug_when_connecting (sys : Sys) (p : Proc) :
  exists l,
    events (snd (migrate sys p)) = events p ++ l /\
    ((exists d, In (NewConnection d) l) ->
     pop_Debug (snd (migrate sys p)) = true /\
     log_Level (snd (migrate sys p)) = level_after_setup sys p /\
     (In SetLogger_noop l <->
      Logging_Level (globalConfig sys) <> "" /\
      is_DebugLevel (level_after_setup sys p) = false)).
Proof.
  destruct (migrate_cases sys p)
    as (l1 & F1 & [(st & Hf & He & Hst)
                  | (u & p2 & l3 & Hu & HD & HL & HL2 & HN & He & Hc)]).
  - exists l1. split; [assumption |]. intros (d & Hd).
    apply (no_db_event_In _ _ F1) in Hd. discriminate.
  - exists (l1 ++ NewConnection (details_for sys u) :: l3).
    split; [assumption |]. intros _. split_and!; try assumption.
    rewrite <- HN. rewrite in_app_iff. simpl.
    split; [| now left]. intros [H | [H | H]]; [assumption | discriminate |].
    destruct Hc as [(e & _ & _ & ->)
                   | [(_ & _ & F3 & _) | (_ & _ & l4 & -> & F4 & _)]].
    + destruct H as [H | []]. discriminate.
    + apply (migration_event_In _ _ _ _ F3) in H. destruct H.
    + rewrite in_app_iff in H. simpl in H.
      destruct H as [H | [H | []]]; [| discriminate].
      apply (migration_event_In _ _ _ _ F4) in H. destruct H.
Qed.

(** X16. A database URL that does not parse never reaches [pop]: no
    connection is asked for and the command does not return.  It is
    reported as a fatal error only when no driver is configured (and the
    URL is not empty); with a driver configured the URL is logged as
    unparseable and the command then panics on the parse result, unless
    the log level was itself rejected before. *)
Theorem unparseable_url (sys : Sys) (p : Proc) (err : error) :
  let cfg := globalConfig sys in
  url_Parse sys (DB_URL cfg) = inl err ->
  exists l,
    events (snd (migrate sys p)) = events p ++ l /\
    Forall (fun e => is_db_event e = false) l /\
    match fst (migrate sys p) with
    | inr _ => False
    | inl Exit =>
        exists msg c,
          last l = Some (Fatalf msg c) /\
          ((msg = "parsing db connection url" /\ c = err /\
            DB_Driver cfg = "" /\ DB_URL cfg <> "") \/
           (msg = "Failed to parse log level" /\
            (DB_Driver cfg <> "" \/ DB_URL cfg = "") /\
            Logging_Level cfg <> ""))
    | inl Panic =>
        (DB_Driver cfg <> "" \/ DB_URL cfg = "") /\
        In (Infof "Database URL: [unparseable-url]") l
    end.
Proof.
  intros cfg Herr. subst cfg.
  destruct (migrate_cases sys p)
    as (l1 & F1 & [(st & Hf & He & Hst)
                  | (u & p2 & l3 & Hu & _)]); [| congruence].
  exists l1. split_and!; try assumption. rewrite Hf. destruct st.
  - destruct Hst as (msg & c & Hl & [(-> & Hc & Hd & Hn) | (-> & Hc & Hn)]);
      do 2 eexists; (split; [exact Hl |]).
    + left. split_and!; congruence.
    + right. split_and!; try reflexivity; try assumption.
      destruct (String.eqb_spec (DB_Driver (globalConfig sys)) "") as [Ed |];
        [| now left].
      destruct (String.eqb_spec (DB_URL (globalConfig sys)) "") as [Eu |];
        [now right |].
      exfalso. revert He. rewrite migrate_unfold. unfold prepare.
      autounfold with cmd_ops. rewrite Ed, Herr.
      destruct (String.eqb_spec (DB_URL (globalConfig sys)) "");
        [contradiction |].
      simpl. intros He. apply app_inv_head in He. subst l1.
      discriminate Hl.
  - destruct Hst as (_ & Hd & Hin). split; assumption.
Qed.

Lemma unparseable_url_witness :
  fst (migrate (demo_sys unparseable_config) fresh_proc) = inl Panic.
Proof.
  destruct (unparseable_url (demo_sys unparseable_config) fresh_proc
              (OtherError "missing protocol scheme") eq_refl)
    as (l & _ & _ & H).
  destruct (fst (migrate (demo_sys unparseable_config) fresh_proc))
    as [[|] | []] eqn:E; [exfalso | reflexivity | destruct H].
  revert E. vm_compute. discriminate.
Defined.


End MigrateFacts.
